(** * automerge-action: the merge workflow of [lib/merge.js]

    A shallow embedding of [lib/merge.js] and of the fragment of the
    JavaScript runtime it relies on (primitive values, strings, regular
    expressions), followed by the properties of the merge workflow.

    Conventions.
    - A JavaScript string is a [string]; each [ascii] stands for one UTF-16
      code unit in the range 0..255.
    - Asynchronous functions are computations in the monad [M]: they
      thread a [World] (the remote service and the trace of observable
      events) and either return a value or throw an [Error]. *)

From Stdlib Require Import String Ascii List Bool Arith NArith Lia.
From Stdlib Require Import DecimalString.
Import ListNotations.

Local Open Scope list_scope.
Local Open Scope string_scope.

(** ** The JavaScript fragment *)

Module JS.

(** Primitive values that the fields read by [merge.js] can hold. *)
Inductive value : Type :=
| VUndefined
| VNull
| VStr (s : string).

Definition value_eqb (a b : value) : bool :=
  match a, b with
  | VUndefined, VUndefined => true
  | VNull, VNull => true
  | VStr s, VStr t => String.eqb s t
  | _, _ => false
  end.

(** [v == null] *)
Definition is_nullish (v : value) : bool :=
  match v with
  | VUndefined | VNull => true
  | VStr _ => false
  end.

(** [v == s] and [v != s] for a string [s]. *)
Definition loose_eq_string (v : value) (s : string) : bool :=
  match v with
  | VStr t => String.eqb t s
  | _ => false
  end.

(** [ToString] *)
Definition ToString (v : value) : string :=
  match v with
  | VUndefined => "undefined"
  | VNull => "null"
  | VStr s => s
  end.

(** [ToString] of a non-negative integer Number. *)
Definition Number_toString (n : N) : string :=
  NilZero.string_of_uint (N.to_uint n).

(** [Array.prototype.includes] on an array of strings. *)
Definition Array_includes (l : list string) (v : value) : bool :=
  existsb (fun s => value_eqb (VStr s) v) l.

Definition includes_string (l : list string) (s : string) : bool :=
  existsb (String.eqb s) l.

(** [String.prototype.includes] *)
Fixpoint String_includes (s pat : string) : bool :=
  String.prefix pat s ||
  match s with
  | EmptyString => false
  | String _ s' => String_includes s' pat
  end.

(** White space and line terminators among the code units 0..255. *)
Definition is_line_terminator (c : ascii) : bool :=
  let n := nat_of_ascii c in Nat.eqb n 10 || Nat.eqb n 13.

Definition is_white_space (c : ascii) : bool :=
  let n := nat_of_ascii c in
  Nat.eqb n 9 || Nat.eqb n 11 || Nat.eqb n 12 || Nat.eqb n 32 || Nat.eqb n 160.

Definition is_trimmable (c : ascii) : bool :=
  is_white_space c || is_line_terminator c.

Fixpoint trimStart (s : string) : string :=
  match s with
  | String c s' => if is_trimmable c then trimStart s' else s
  | EmptyString => EmptyString
  end.

Fixpoint trimEnd (s : string) : string :=
  match s with
  | EmptyString => EmptyString
  | String c s' =>
      match trimEnd s' with
      | EmptyString => if is_trimmable c then EmptyString else String c EmptyString
      | t => String c t
      end
  end.

(** [String.prototype.trim] *)
Definition trim (s : string) : string := trimEnd (trimStart s).

End JS.

Import JS.

(** ** Regular expressions

    The pattern language is the fragment of ECMAScript patterns made of
    literal characters, [.], [^], [$], sequencing, alternation, greedy and
    lazy [*], and capturing groups.  The matcher follows the backtracking
    semantics of the language definition (continuation-passing matchers,
    captures reset on each iteration of a quantifier, empty iterations
    rejected). *)

Module RegExp.

Inductive regex : Type :=
| Empty
| Char (c : ascii)
| Dot
| Bol
| Eol
| Seq (r1 r2 : regex)
| Alt (r1 r2 : regex)
| Star (greedy : bool) (r : regex)
| Group (r : regex).

(** A pattern as [new RegExp] receives it: the source text, and the
    syntax tree the engine's parser builds from it. *)
Record Pattern : Type := mkPattern {
  source : string;
  ast : regex
}.

Record Flags : Type := mkFlags {
  global : bool;
  ignoreCase : bool;
  multiline : bool;
  dotAll : bool
}.

Definition no_flags : Flags := mkFlags false false false false.

Definition add_flag (f : Flags) (c : ascii) : Flags :=
  if Ascii.eqb c "g" then mkFlags true (ignoreCase f) (multiline f) (dotAll f)
  else if Ascii.eqb c "i" then mkFlags (global f) true (multiline f) (dotAll f)
  else if Ascii.eqb c "m" then mkFlags (global f) (ignoreCase f) true (dotAll f)
  else if Ascii.eqb c "s" then mkFlags (global f) (ignoreCase f) (multiline f) true
  else f.

Definition parse_flags (s : string) : Flags :=
  fold_left add_flag (list_ascii_of_string s) no_flags.

Record t : Type := mkRegExp {
  pattern : Pattern;
  flags : Flags
}.

(** [new RegExp(pattern, flags)] *)
Definition new (p : Pattern) (fl : string) : t :=
  mkRegExp p (parse_flags fl).

(** The pattern that matches the text [s] literally. *)
Fixpoint literal (s : string) : regex :=
  match s with
  | EmptyString => Empty
  | String c s' => Seq (Char c) (literal s')
  end.

(** Number of capturing groups, in the order of their left parentheses. *)
Fixpoint ngroups (r : regex) : nat :=
  match r with
  | Empty | Char _ | Dot | Bol | Eol => 0
  | Seq r1 r2 | Alt r1 r2 => ngroups r1 + ngroups r2
  | Star _ r1 => ngroups r1
  | Group r1 => S (ngroups r1)
  end.

(** [Canonicalize] without the unicode flag, on the code units 0..255. *)
Definition Canonicalize (fl : Flags) (c : ascii) : N :=
  let n := N_of_ascii c in
  if negb (ignoreCase fl) then n
  else if N.leb 97 n && N.leb n 122 then (n - 32)%N
  else if N.leb 224 n && N.leb n 254 && negb (N.eqb n 247) then (n - 32)%N
  else if N.eqb n 255 then 376%N
  else if N.eqb n 181 then 924%N
  else n.

Definition captures : Type := list (option string).

Record mstate : Type := mkState {
  endIndex : nat;
  caps : captures
}.

Definition cont : Type := mstate -> option mstate.

Fixpoint set_nth {A} (i : nat) (x : A) (l : list A) : list A :=
  match l, i with
  | [], _ => []
  | _ :: l', O => x :: l'
  | y :: l', S i' => y :: set_nth i' x l'
  end.

(** Captures [from .. from + count - 1] become undefined. *)
Fixpoint clear_caps (from count : nat) (l : captures) : captures :=
  match count with
  | O => l
  | S count' => clear_caps (S from) count' (set_nth from None l)
  end.

Definition slice (input : list ascii) (from to : nat) : string :=
  string_of_list_ascii (firstn (to - from) (skipn from input)).

Definition or_else {A} (a b : option A) : option A :=
  match a with
  | Some _ => a
  | None => b
  end.

(** The iterations of [r*], where [step] is the matcher of [r]: at most
    [fuel] of them.  The captures [gi .. gi + n - 1] of [r] are reset
    before each iteration, and an iteration that consumes nothing is
    refused. *)
Fixpoint repeat_star (step : cont -> mstate -> option mstate) (greedy : bool)
         (gi n : nat) (k : cont) (fuel : nat) (x : mstate) {struct fuel}
  : option mstate :=
  let iterate :=
    match fuel with
    | O => None
    | S fuel' =>
        step
          (fun y =>
             if Nat.eqb (endIndex y) (endIndex x) then None
             else repeat_star step greedy gi n k fuel' y)
          (mkState (endIndex x) (clear_caps gi n (caps x)))
    end in
  if greedy then or_else iterate (k x) else or_else (k x) iterate.

(** The matcher of [r], whose first group has index [gi], run on state
    [x] with continuation [k]; a [*] makes at most [fuel] iterations. *)
Fixpoint matcher_upto (fuel : nat) (fl : Flags) (input : list ascii) (r : regex)
         (gi : nat) (k : cont) (x : mstate) {struct r} : option mstate :=
  match r with
  | Empty => k x
  | Char c =>
      match nth_error input (endIndex x) with
      | Some d =>
          if N.eqb (Canonicalize fl c) (Canonicalize fl d)
          then k (mkState (S (endIndex x)) (caps x))
          else None
      | None => None
      end
  | Dot =>
      match nth_error input (endIndex x) with
      | Some d =>
          if dotAll fl || negb (is_line_terminator d)
          then k (mkState (S (endIndex x)) (caps x))
          else None
      | None => None
      end
  | Bol =>
      match endIndex x with
      | O => k x
      | S e =>
          match nth_error input e with
          | Some d => if multiline fl && is_line_terminator d then k x else None
          | None => None
          end
      end
  | Eol =>
      match nth_error input (endIndex x) with
      | None => k x
      | Some d => if multiline fl && is_line_terminator d then k x else None
      end
  | Seq r1 r2 =>
      matcher_upto fuel fl input r1 gi
        (fun y => matcher_upto fuel fl input r2 (gi + ngroups r1) k y) x
  | Alt r1 r2 =>
      or_else (matcher_upto fuel fl input r1 gi k x)
              (matcher_upto fuel fl input r2 (gi + ngroups r1) k x)
  | Group r1 =>
      matcher_upto fuel fl input r1 (S gi)
        (fun y =>
           k (mkState (endIndex y)
                (set_nth gi (Some (slice input (endIndex x) (endIndex y)))
                   (caps y)))) x
  | Star greedy r1 =>
      repeat_star (matcher_upto fuel fl input r1 gi) greedy gi (ngroups r1) k
        fuel x
  end.

(** An iteration of [*] that succeeds consumes at least one code unit, so
    [length input] iterations are all there can be (see
    [matcher_upto_enough]). *)
Definition matcher (fl : Flags) (input : list ascii)
  : regex -> nat -> cont -> mstate -> option mstate :=
  matcher_upto (length input) fl input.

(** The state [x] is within the input. *)
Definition in_range (input : list ascii) (x : mstate) : Prop :=
  endIndex x <= length input.

(** [step] looks at its continuation only on states that are not before
    the one it starts from, and within the input. *)
Definition forward (input : list ascii)
           (step : cont -> mstate -> option mstate) : Prop :=
  forall (k k' : cont) (x : mstate),
    in_range input x ->
    (forall y, endIndex x <= endIndex y -> in_range input y -> k y = k' y) ->
    step k x = step k' x.

(** [step] fails when its continuation does. *)
Definition strict (input : list ascii)
           (step : cont -> mstate -> option mstate) : Prop :=
  forall x, in_range input x -> step (fun _ => None) x = None.

(** The result array of a successful match: [m.index], [m[0]], and the
    captures [m[1]], [m[2]], ... *)
Record MatchResult : Type := mkMatch {
  index : nat;
  matched : string;
  groups : captures
}.

(** [m[i]] *)
Definition get (m : MatchResult) (i : nat) : value :=
  match i with
  | O => VStr (matched m)
  | S j =>
      match nth_error (groups m) j with
      | Some (Some s) => VStr s
      | _ => VUndefined
      end
  end.

Definition match_at (fl : Flags) (r : regex) (input : list ascii) (i : nat)
  : option MatchResult :=
  match matcher fl input r 0 Some (mkState i (repeat None (ngroups r))) with
  | Some y => Some (mkMatch i (slice input i (endIndex y)) (caps y))
  | None => None
  end.

(** The leftmost match starting at one of [i], [i+1], ..., [i+n]. *)
Fixpoint search (fl : Flags) (r : regex) (input : list ascii) (n i : nat)
  : option MatchResult :=
  match match_at fl r input i with
  | Some m => Some m
  | None =>
      match n with
      | O => None
      | S n' => search fl r input n' (S i)
      end
  end.

(** [RegExpBuiltinExec] with [lastIndex = i]. *)
Definition exec_from (re : t) (input : list ascii) (i : nat)
  : option MatchResult :=
  if Nat.leb i (length input)
  then search (flags re) (ast (pattern re)) input (length input - i) i
  else None.

(** [re.exec(s)] on a regular expression without the global and sticky
    flags, whose search starts at index 0. *)
Definition exec (re : t) (s : string) : option MatchResult :=
  exec_from re (list_ascii_of_string s) 0.

Definition digit_of (c : ascii) : option nat :=
  let n := nat_of_ascii c in
  if Nat.leb 48 n && Nat.leb n 57 then Some (n - 48) else None.

(** The text a [$n] reference stands for, when [1 <= n <= m] for [m] the
    number of captures. *)
Definition capture_ref (m : MatchResult) (n : nat) : option string :=
  match n with
  | O => None
  | S j =>
      match nth_error (groups m) j with
      | Some (Some s) => Some s
      | Some None => Some ""
      | None => None
      end
  end.

(** [GetSubstitution]: the replacement text with its [$] patterns
    expanded ([$$], [$&], [$`], [$'], [$n], [$nn]); any other [$] stands
    for itself. *)
Fixpoint GetSubstitution (m : MatchResult) (input : list ascii)
         (template : string) : string :=
  match template with
  | EmptyString => ""
  | String c t1 =>
      if negb (Ascii.eqb c "$") then String c (GetSubstitution m input t1)
      else
        match t1 with
        | EmptyString => "$"
        | String d t2 =>
            if Ascii.eqb d "$" then "$" ++ GetSubstitution m input t2
            else if Ascii.eqb d "&" then matched m ++ GetSubstitution m input t2
            else if Ascii.eqb d "`" then
              slice input 0 (index m) ++ GetSubstitution m input t2
            else if Ascii.eqb d "'" then
              slice input (index m + String.length (matched m)) (length input)
              ++ GetSubstitution m input t2
            else
              match digit_of d with
              | None => "$" ++ GetSubstitution m input t1
              | Some n1 =>
                  let one_digit :=
                    match capture_ref m n1 with
                    | Some s => s ++ GetSubstitution m input t2
                    | None => "$" ++ GetSubstitution m input t1
                    end in
                  match t2 with
                  | EmptyString => one_digit
                  | String e t3 =>
                      match digit_of e with
                      | None => one_digit
                      | Some n2 =>
                          match capture_ref m (10 * n1 + n2) with
                          | Some s => s ++ GetSubstitution m input t3
                          | None => one_digit
                          end
                      end
                  end
              end
        end
  end.

(** The loop of [RegExp.prototype[Symbol.replace]]: at most [fuel]
    matches are replaced, the search for the next one starting at
    [lastIndex]; [next] is the end of the text already copied to [acc]. *)
Fixpoint replace_loop (fuel : nat) (re : t) (input : list ascii)
         (replacement : string) (lastIndex next : nat) (acc : string)
  : string :=
  match fuel with
  | O => acc ++ slice input next (length input)
  | S fuel' =>
      match exec_from re input lastIndex with
      | None => acc ++ slice input next (length input)
      | Some m =>
          let e := index m + String.length (matched m) in
          let lastIndex' := if Nat.eqb (String.length (matched m)) 0 then S e else e in
          if Nat.leb next (index m)
          then replace_loop fuel' re input replacement lastIndex' e
                 (acc ++ slice input next (index m)
                      ++ GetSubstitution m input replacement)
          else replace_loop fuel' re input replacement lastIndex' next acc
      end
  end.

(** [s.replace(re, replacement)] for a replacement text: every match
    when [re] is global (each search advances [lastIndex], so there are
    at most [length s + 1] of them), the first one otherwise. *)
Definition replace (s : string) (re : t) (replacement : string) : string :=
  let input := list_ascii_of_string s in
  replace_loop (if global (flags re) then S (length input) else 1)
    re input replacement 0 0 "".

End RegExp.

(** ** Data model *)

Record Owner : Type := mkOwner {
  login : string
}.

Record Repo : Type := mkRepo {
  repo_full_name : string;
  repo_name : string;
  repo_owner : Owner
}.

(** [pullRequest.head] and [pullRequest.base] *)
Record Ref : Type := mkRef {
  sha : string;
  ref : string;
  repo : Repo
}.

Record Label : Type := mkLabel {
  label_name : string
}.

Record PullRequest : Type := mkPullRequest {
  number : N;
  title : string;
  body : value;
  state : string;
  merged : bool;
  mergeable_state : value;
  head : Ref;
  base : Ref;
  user : Owner;
  labels : list Label
}.

(** [pullRequest.body = b] *)
Definition set_body (pr : PullRequest) (b : value) : PullRequest :=
  mkPullRequest (number pr) (title pr) b (state pr) (merged pr)
    (mergeable_state pr) (head pr) (base pr) (user pr) (labels pr).

(** The same pull request, opened by [u]. *)
Definition set_user (pr : PullRequest) (u : Owner) : PullRequest :=
  mkPullRequest (number pr) (title pr) (body pr) (state pr) (merged pr)
    (mergeable_state pr) (head pr) (base pr) u (labels pr).

Record CheckRun : Type := mkCheckRun {
  check_name : string;
  conclusion : value
}.

Record Review : Type := mkReview {
  review_state : string
}.

Record Branch : Type := mkBranch {
  branch_name : string;
  protected : bool
}.

Record MergeLabels : Type := mkMergeLabels {
  blocking : list string;
  required : list string
}.

(** [context.config].  An option is [None] when the setting is unset
    (a falsy value); a set [mergeCommitMessageRegex] or [mergeFilterAuthor]
    is truthy when its text is not empty. *)
Record Config : Type := mkConfig {
  mergeForks : bool;
  mergeLabels : MergeLabels;
  mergeRequireStatuses : option (list string);
  mergeRequireApproval : bool;
  failOnMergeSkip : bool;
  mergeMethod : string;
  mergeCommitMessage : string;
  mergeCommitMessageRegex : option RegExp.Pattern;
  mergeFilterAuthor : option string;
  mergeRemoveLabels : list string;
  mergeRetries : nat;
  mergeRetrySleep : N;
  mergeDeleteBranch : bool
}.

(** A thrown [Error] object. *)
Record Error : Type := mkError {
  message : value
}.

Inductive result (A : Type) : Type :=
| Ok (a : A)
| Throw (e : Error).

Arguments Ok {A} a.
Arguments Throw {A} e.

(** The tri-state result of an attempt: ["success"], ["failure"],
    ["retry"]. *)
Inductive outcome : Type :=
| Success
| Failure
| Retry.

(** ** Observable events *)

(** The calls made on the remote service, with their arguments. *)
Inductive Call : Type :=
| PullsGet (owner repo : string) (pull_number : N)
| PullsMerge (owner repo : string) (pull_number : N) (commit_title : value)
    (commit_message : string) (sha : string) (merge_method : string)
| IssuesRemoveLabel (owner repo : string) (issue_number : N) (name : string)
| ReposGetBranch (owner repo branch : string)
| GitDeleteRef (owner repo ref : string)
| GetCheckRuns (owner repo ref : string)
| GetReviews (owner repo : string) (pull_number : N).

Inductive Level : Type :=
| Info
| Debug
| Trace.

Inductive LogArg : Type :=
| LV (v : value)
| LNames (names : list string)
| LNum (n : nat)
| LPull (pr : PullRequest)
| LBranch (b : Branch)
| LChecks (checks : list CheckRun)
| LReviews (reviews : list Review).

Definition LS (s : string) : LogArg := LV (VStr s).

Inductive Event : Type :=
| EvCall (c : Call)
| EvLog (level : Level) (args : list LogArg)
| EvSleep (ms : N).

Definition is_merge_call (e : Event) : bool :=
  match e with
  | EvCall (PullsMerge _ _ _ _ _ _ _) => true
  | _ => false
  end.

Definition LF : string := String "010" EmptyString.

(** ** The remote service and the monad of asynchronous computations *)

(** [context.octokit]: each operation answers from the state of the remote
    service, which it may change, and either resolves or rejects. *)
Record Octokit (Remote : Type) : Type := mkOctokit {
  pulls_get : string -> string -> N -> Remote -> result PullRequest * Remote;
  pulls_merge : string -> string -> N -> value -> string -> string -> string ->
                Remote -> result unit * Remote;
  issues_removeLabel : string -> string -> N -> string ->
                       Remote -> result unit * Remote;
  repos_getBranch : string -> string -> string -> Remote -> result Branch * Remote;
  git_deleteRef : string -> string -> string -> Remote -> result unit * Remote;
  request_check_runs : string -> string -> string ->
                       Remote -> result (option (list CheckRun)) * Remote;
  request_reviews : string -> string -> N -> Remote -> result (list Review) * Remote
}.

Arguments pulls_get {Remote} _.
Arguments pulls_merge {Remote} _.
Arguments issues_removeLabel {Remote} _.
Arguments repos_getBranch {Remote} _.
Arguments git_deleteRef {Remote} _.
Arguments request_check_runs {Remote} _.
Arguments request_reviews {Remote} _.

(** The remote service and the events observed so far, most recent first. *)
Record World (Remote : Type) : Type := mkWorld {
  remote : Remote;
  trace : list Event
}.

Arguments mkWorld {Remote} _ _.
Arguments remote {Remote} _.
Arguments trace {Remote} _.

Record Context (Remote : Type) : Type := mkContext {
  octokit : Octokit Remote;
  config : Config
}.

Arguments mkContext {Remote} _ _.
Arguments octokit {Remote} _.
Arguments config {Remote} _.

Section Workflow.

Context {Remote : Type}.

Definition M (A : Type) : Type := World Remote -> result A * World Remote.

Definition ret {A} (a : A) : M A := fun w => (Ok a, w).

Definition throw {A} (e : Error) : M A := fun w => (Throw e, w).

Definition bind {A B} (m : M A) (k : A -> M B) : M B :=
  fun w =>
    match m w with
    | (Ok a, w') => k a w'
    | (Throw e, w') => (Throw e, w')
    end.

(** [try { m } catch (e) { h e }] *)
Definition try_catch {A} (m : M A) (h : Error -> M A) : M A :=
  fun w =>
    match m w with
    | (Ok a, w') => (Ok a, w')
    | (Throw e, w') => h e w'
    end.

Definition emit (e : Event) : M unit :=
  fun w => (Ok tt, mkWorld (remote w) (e :: trace w)).

(** A call on the remote service: recorded, then answered. *)
Definition call {A} (c : Call) (answer : Remote -> result A * Remote) : M A :=
  fun w =>
    let (r, rem) := answer (remote w) in
    (r, mkWorld rem (EvCall c :: trace w)).

Notation "x <- c1 ;; c2" := (bind c1 (fun x => c2))
  (at level 61, c1 at next level, right associativity).
Notation "c1 ;; c2" := (bind c1 (fun _ => c2))
  (at level 61, right associativity).

Fixpoint foldM {A S} (step : S -> A -> M S) (l : list A) (s : S) : M S :=
  match l with
  | [] => ret s
  | a :: l' => s' <- step s a ;; foldM step l' s'
  end.

Fixpoint forEach {A} (l : list A) (step : A -> M unit) : M unit :=
  match l with
  | [] => ret tt
  | a :: l' => step a ;; forEach l' step
  end.

(** *** [lib/common.js] *)

(** Modelled from the spec: the [logger] of [lib/common.js], which is not
    part of the sources at hand.  Logging is observability only; each
    call is recorded in the trace with its arguments. *)
Definition logger_info (args : list LogArg) : M unit := emit (EvLog Info args).
Definition logger_debug (args : list LogArg) : M unit := emit (EvLog Debug args).
Definition logger_trace (args : list LogArg) : M unit := emit (EvLog Trace args).

(** Modelled from the spec: the suspension of [sleepMs] milliseconds
    between two attempts. *)
Definition sleep (ms : N) : M unit := emit (EvSleep ms).

(** Modelled from the spec: the loop of [retry], entered after the
    immediate attempt asked for a retry, with [n] attempts left: sleep,
    run the follow-up attempt, and inspect its result by the three-way
    rule; when no attempt is left, run the exhaustion callback. *)
Fixpoint retry_loop (n : nat) (sleepMs : N) (retryAttempt : M outcome)
         (onExhausted : M unit) : M bool :=
  match n with
  | O => onExhausted ;; ret false
  | S n' =>
      sleep sleepMs ;;
      r <- retryAttempt ;;
      match r with
      | Success => ret true
      | Failure => ret false
      | Retry => retry_loop n' sleepMs retryAttempt onExhausted
      end
  end.

(** Modelled from the spec: [retry] of [lib/common.js], which is not part
    of the sources at hand: the bounded retry-with-sleep executor
    [run(maxAttempts, sleepMs, immediateAttempt, retryAttempt,
    onExhausted)].  A [success] of the immediate attempt gives [true] and
    a [failure] gives [false], with no retry; a [retry] enters the loop,
    which makes at most [maxAttempts] attempts in total, the first
    included. *)
Definition retry (maxAttempts : nat) (sleepMs : N)
           (immediateAttempt retryAttempt : M outcome) (onExhausted : M unit)
  : M bool :=
  r <- immediateAttempt ;;
  match r with
  | Success => ret true
  | Failure => ret false
  | Retry => retry_loop (maxAttempts - 1) sleepMs retryAttempt onExhausted
  end.

(** *** [lib/merge.js] *)

Definition MAYBE_READY : list string :=
  ["clean"; "has_hooks"; "unknown"; "unstable"].

Definition NOT_READY : list string := ["dirty"; "draft"].

Definition checkReady (pullRequest : PullRequest) : M outcome :=
  let mergeable_state := mergeable_state pullRequest in
  if is_nullish mergeable_state || Array_includes MAYBE_READY mergeable_state
  then
    logger_info [LS "PR is probably ready: mergeable_state:"; LV mergeable_state] ;;
    ret Success
  else if Array_includes NOT_READY mergeable_state then
    logger_info [LS "PR not ready: mergeable_state:"; LV mergeable_state] ;;
    ret Failure
  else
    logger_info [LS "Current PR status: mergeable_state:"; LV mergeable_state] ;;
    ret Retry.

Definition getPullRequest (octokit : Octokit Remote) (pullRequest : PullRequest)
  : M PullRequest :=
  logger_debug [LS "Getting latest PR data..."] ;;
  let owner := login (repo_owner (repo (base pullRequest))) in
  let repo := repo_name (repo (base pullRequest)) in
  pr <- call (PullsGet owner repo (number pullRequest))
             (pulls_get octokit owner repo (number pullRequest)) ;;
  logger_trace [LS "PR:"; LPull pr] ;;
  ret pr.

Definition waitUntilReady (octokit : Octokit Remote) (pullRequest : PullRequest)
           (mergeRetries : nat) (mergeRetrySleep : N) : M bool :=
  retry mergeRetries mergeRetrySleep
    (checkReady pullRequest)
    (pr <- getPullRequest octokit pullRequest ;; checkReady pr)
    (logger_info
       [LS ("PR not ready to be merged after "
            ++ Number_toString (N.of_nat mergeRetries) ++ " tries")]).

Definition review_required : string :=
  "review is required by reviewers with write access".

Definition reviews_required : string :=
  "reviews are required by reviewers with write access".

(** [e ? e.message || "" : ""]; [e] is [None] when the caught value is
    falsy. *)
Definition error_text (e : option Error) : string :=
  match e with
  | Some err =>
      match message err with
      | VStr s => s
      | _ => ""
      end
  | None => ""
  end.

Definition checkMergeError (e : option Error) : M outcome :=
  let m := error_text e in
  if String_includes m review_required || String_includes m reviews_required
  then
    logger_info [LS "Cannot merge PR:"; LS m] ;;
    ret Failure
  else
    logger_info [LS "Failed to merge PR:"; LS m] ;;
    ret Retry.

Definition mergePullRequest (octokit : Octokit Remote) (pullRequest : PullRequest)
           (head : string) (mergeMethod : string) (commitMessage : value)
  : M outcome :=
  let owner := login (repo_owner (repo (base pullRequest))) in
  let repo := repo_name (repo (base pullRequest)) in
  try_catch
    (call (PullsMerge owner repo (number pullRequest) commitMessage "" head
             mergeMethod)
          (pulls_merge octokit owner repo (number pullRequest) commitMessage ""
             head mergeMethod) ;;
     ret Success)
    (fun e => checkMergeError (Some e)).

Definition tryMerge (octokit : Octokit Remote) (pullRequest : PullRequest)
           (head : string) (mergeMethod : string) (mergeRetries : nat)
           (mergeRetrySleep : N) (commitMessage : value) : M bool :=
  retry mergeRetries mergeRetrySleep
    (mergePullRequest octokit pullRequest head mergeMethod commitMessage)
    (pr <- getPullRequest octokit pullRequest ;;
     if merged pr then ret Success
     else mergePullRequest octokit pullRequest head mergeMethod commitMessage)
    (logger_info
       [LS ("PR could not be merged after "
            ++ Number_toString (N.of_nat mergeRetries) ++ " tries")]).

(** The pattern [`{pullRequest.${prProp}}`]; its dot is the wildcard of
    the pattern language. *)
Definition placeholder (prProp : string) : RegExp.Pattern :=
  RegExp.mkPattern ("{pullRequest." ++ prProp ++ "}")
    (RegExp.Seq (RegExp.literal "{pullRequest")
       (RegExp.Seq RegExp.Dot
          (RegExp.Seq (RegExp.literal prProp) (RegExp.Char "}")))).

(** [pullRequest[prProp]] as a replacement text. *)
Definition prop_text (pullRequest : PullRequest) (prProp : string) : string :=
  if String.eqb prProp "number" then Number_toString (number pullRequest)
  else if String.eqb prProp "title" then title pullRequest
  else if String.eqb prProp "body" then ToString (body pullRequest)
  else "undefined".

(** The result is the commit title sent to the remote service; it is
    [undefined] when the service chooses the message. *)
Definition getCommitMessage (mergeCommitMessage : string)
           (pullRequest : PullRequest) : value :=
  if String.eqb mergeCommitMessage "automatic" then VUndefined
  else if String.eqb mergeCommitMessage "pull-request-title" then
    VStr (title pullRequest)
  else if String.eqb mergeCommitMessage "pull-request-description" then
    body pullRequest
  else if String.eqb mergeCommitMessage "pull-request-title-and-description" then
    VStr (title pullRequest ++ LF ++ LF ++ ToString (body pullRequest))
  else
    VStr (fold_left
            (fun mergeCommitMessage prProp =>
               RegExp.replace mergeCommitMessage
                 (RegExp.new (placeholder prProp) "g")
                 (prop_text pullRequest prProp))
            ["number"; "title"; "body"] mergeCommitMessage).

Definition removeLabels (octokit : Octokit Remote) (pullRequest : PullRequest)
           (mergeRemoveLabels : list string) : M unit :=
  let labels :=
    filter (fun label => includes_string mergeRemoveLabels (label_name label))
      (labels pullRequest) in
  if Nat.ltb (length labels) 1 then
    logger_debug [LS "No labels to remove."]
  else
    let labelNames := map label_name labels in
    logger_debug [LS "Removing labels:"; LNames labelNames] ;;
    forEach labelNames
      (fun name =>
         let owner := login (repo_owner (repo (base pullRequest))) in
         let repo := repo_name (repo (base pullRequest)) in
         call (IssuesRemoveLabel owner repo (number pullRequest) name)
              (issues_removeLabel octokit owner repo (number pullRequest) name)) ;;
    logger_info [LS "Removed labels:"; LNames labelNames].

Definition deleteBranch (octokit : Octokit Remote) (pullRequest : PullRequest)
  : M unit :=
  if negb (String.eqb (repo_full_name (repo (head pullRequest)))
                      (repo_full_name (repo (base pullRequest))))
  then logger_info [LS "Branch is from external repository, skipping delete"]
  else
    let owner := login (repo_owner (repo (head pullRequest))) in
    let repo := repo_name (repo (head pullRequest)) in
    branch <- call (ReposGetBranch owner repo (ref (head pullRequest)))
                   (repos_getBranch octokit owner repo (ref (head pullRequest))) ;;
    logger_trace [LS "Branch:"; LBranch branch] ;;
    if protected branch then
      logger_info [LS "Branch is protected and cannot be deleted:";
                   LS (branch_name branch)]
    else
      logger_debug [LS "Deleting branch"; LS (branch_name branch); LS "..."] ;;
      call (GitDeleteRef owner repo ("heads/" ++ branch_name branch))
           (git_deleteRef octokit owner repo ("heads/" ++ branch_name branch)) ;;
      logger_info [LS "Merged branch has been deleted:"; LS (branch_name branch)].

Definition fetchChecks (context : Context Remote) (pullRequest : PullRequest)
  : M (list CheckRun) :=
  let owner := login (repo_owner (repo (base pullRequest))) in
  let repo := repo_name (repo (base pullRequest)) in
  logger_debug [LS "Getting check runs for"; LS (sha (head pullRequest)); LS "..."] ;;
  response <- call (GetCheckRuns owner repo (sha (head pullRequest)))
                   (request_check_runs (octokit context) owner repo
                      (sha (head pullRequest))) ;;
  let check_runs :=
    match response with
    | Some runs => runs
    | None => []
    end in
  logger_trace [LS "Found checks:"; LChecks check_runs] ;;
  ret check_runs.

Definition fetchReviews (context : Context Remote) (pullRequest : PullRequest)
  : M (list Review) :=
  let owner := login (repo_owner (repo (base pullRequest))) in
  let repo := repo_name (repo (base pullRequest)) in
  logger_debug [LS "Getting reviews for"; LS (Number_toString (number pullRequest));
                LS "..."] ;;
  response <- call (GetReviews owner repo (number pullRequest))
                   (request_reviews (octokit context) owner repo
                      (number pullRequest)) ;;
  logger_trace [LS "Found reviews:"; LReviews response] ;;
  ret response.

(** [if (cond) { note; skip = true }] *)
Definition skip_when (cond : bool) (note : M unit) (skip : bool) : M bool :=
  if cond then note ;; ret true else ret skip.

(** The inner loop over the check runs, for one required name; the state
    is [(foundStatus, skip)]. *)
Definition scanChecks (required : string) (checks : list CheckRun)
           (skip : bool) : M (bool * bool) :=
  foldM
    (fun (st : bool * bool) (status : CheckRun) =>
       let (foundStatus, skip) := st in
       if String.eqb (check_name status) required then
         skip <- skip_when (negb (loose_eq_string (conclusion status) "success"))
                   (logger_info
                      [LS "Skipping PR merge, required check"; LS required;
                       LS "has conclusion"; LV (conclusion status)])
                   skip ;;
         ret (true, skip)
       else ret (foundStatus, skip))
    checks (false, skip).

Definition countApprovals (approvals : list Review) : nat :=
  fold_left
    (fun numApprovals approval =>
       if String.eqb (review_state approval) "APPROVED"
       then numApprovals + 1 else numApprovals)
    approvals 0.

Definition skipPullRequest (context : Context Remote) (pullRequest : PullRequest)
  : M bool :=
  let mergeForks := mergeForks (config context) in
  let mergeLabels := mergeLabels (config context) in
  let mergeRequireStatuses := mergeRequireStatuses (config context) in
  let mergeRequireApproval := mergeRequireApproval (config context) in
  let skip := false in
  skip <- skip_when (negb (String.eqb (state pullRequest) "open"))
            (logger_info [LS "Skipping PR merge, state is not open:";
                          LS (state pullRequest)])
            skip ;;
  skip <- skip_when (merged pullRequest)
            (logger_info [LS "Skipping PR merge, already merged!"])
            skip ;;
  skip <- skip_when
            (negb (String.eqb (repo_full_name (repo (head pullRequest)))
                              (repo_full_name (repo (base pullRequest))))
             && negb mergeForks)
            (logger_info [LS "PR is a fork and MERGE_FORKS is false, skipping merge"])
            skip ;;
  let labelNames := map label_name (labels pullRequest) in
  skip <- foldM
            (fun skip label =>
               skip_when (includes_string (blocking mergeLabels) (label_name label))
                 (logger_info [LS "Skipping PR merge, blocking label present:";
                               LS (label_name label)])
                 skip)
            (labels pullRequest) skip ;;
  skip <- foldM
            (fun skip required =>
               skip_when (negb (includes_string labelNames required))
                 (logger_info [LS "Skipping PR merge, required label missing:";
                               LS required])
                 skip)
            (required mergeLabels) skip ;;
  skip <- match mergeRequireStatuses with
          | Some mergeRequireStatuses =>
              checks <- fetchChecks context pullRequest ;;
              foldM
                (fun skip required =>
                   st <- scanChecks required checks skip ;;
                   let (foundStatus, skip) := (st : bool * bool) in
                   skip_when (negb foundStatus)
                     (logger_info [LS "Skipping PR merge, required check is absent:";
                                   LS required])
                     skip)
                mergeRequireStatuses skip
          | None => ret skip
          end ;;
  skip <- (if mergeRequireApproval then
             approvals <- fetchReviews context pullRequest ;;
             let numApprovals := countApprovals approvals in
             if Nat.eqb numApprovals 0 then
               logger_info [LS "Skipping PR merge, require approval but none found"] ;;
               ret true
             else
               logger_debug [LS "Found"; LNum numApprovals; LS "approval(s)"] ;;
               ret skip
           else ret skip) ;;
  ret skip.

(** Lines 43 to 54 of [merge]: the body rewritten from the first
    capturing group of the configured pattern.  The source assigns to
    [pullRequest.body] of the object it was given; here the rewritten pull
    request is returned and passed on to the rest of [merge]. *)
Definition applyCommitMessageRegex
           (mergeCommitMessageRegex : option RegExp.Pattern)
           (pullRequest : PullRequest) : M PullRequest :=
  match mergeCommitMessageRegex with
  | Some p =>
      if String.eqb (RegExp.source p) "" then ret pullRequest
      else
        match RegExp.exec (RegExp.new p "sm") (ToString (body pullRequest)) with
        | Some m =>
            match RegExp.get m 1 with
            | VStr m1 => ret (set_body pullRequest (VStr (trim m1)))
            | _ =>
                throw (mkError
                         (VStr ("MERGE_COMMIT_MESSAGE_REGEX must contain a capturing subgroup: '"
                                ++ RegExp.source p ++ "'")))
            end
        | None => ret pullRequest
        end
  | None => ret pullRequest
  end.

(** [mergeFilterAuthor && pullRequest.user.login !== mergeFilterAuthor] *)
Definition author_filtered (mergeFilterAuthor : option string)
           (pullRequest : PullRequest) : bool :=
  match mergeFilterAuthor with
  | Some author =>
      negb (String.eqb author "")
      && negb (String.eqb (login (user pullRequest)) author)
  | None => false
  end.

(** Lines 76 to 88 of [merge]: the two best-effort steps after a merge. *)
Definition cleanUp (context : Context Remote) (pullRequest : PullRequest)
  : M unit :=
  try_catch
    (removeLabels (octokit context) pullRequest
       (mergeRemoveLabels (config context)))
    (fun e => logger_info [LS "Failed to remove labels:"; LV (message e)]) ;;
  if mergeDeleteBranch (config context) then
    try_catch
      (deleteBranch (octokit context) pullRequest)
      (fun e => logger_info [LS "Failed to delete branch:"; LV (message e)])
  else ret tt.

(** Line 14 of [merge]. *)
Definition announce (pullRequest : PullRequest) : M unit :=
  logger_info [LS ("Merging PR #" ++ Number_toString (number pullRequest)
                   ++ " " ++ title pullRequest)].

(** Lines 56 to 90 of [merge]: the author filter, the composition of
    the commit message, the merge and the clean-up; [sha] is the head
    commit read at line 17. *)
Definition finishMerge (context : Context Remote) (pullRequest : PullRequest)
           (sha : string) : M bool :=
  let cfg := config context in
  if author_filtered (mergeFilterAuthor cfg) pullRequest then ret false
  else
    let commitMessage := getCommitMessage (mergeCommitMessage cfg) pullRequest in
    merged <- tryMerge (octokit context) pullRequest sha (mergeMethod cfg)
                (mergeRetries cfg) (mergeRetrySleep cfg) commitMessage ;;
    if negb merged then ret false
    else
      logger_info [LS "PR successfully merged!"] ;;
      cleanUp context pullRequest ;;
      ret true.

Definition merge (context : Context Remote) (pullRequest : PullRequest)
  : M bool :=
  skipped <- skipPullRequest context pullRequest ;;
  if (skipped : bool) then
    if failOnMergeSkip (config context) then
      throw (mkError
               (VStr "Pull request is skipped with FAIL_ON_MERGE_SKIP set to 'true'."))
    else ret false
  else
    announce pullRequest ;;
    let sha := sha (head pullRequest) in
    let cfg := config context in
    ready <- waitUntilReady (octokit context) pullRequest
               (mergeRetries cfg) (mergeRetrySleep cfg) ;;
    if negb ready then ret false
    else
      pullRequest <- applyCommitMessageRegex (mergeCommitMessageRegex cfg)
                       pullRequest ;;
      finishMerge context pullRequest sha.

End Workflow.

(** ** Declarative readings of the workflow's decisions *)

(** [s] contains the text [pat]. *)
Definition Contains (s pat : string) : Prop :=
  exists before after, s = before ++ pat ++ after.

Definition named (required : string) (c : CheckRun) : bool :=
  String.eqb (check_name c) required.

Definition succeeded (c : CheckRun) : bool :=
  loose_eq_string (conclusion c) "success".

(** A required check name is unsatisfied when no run has that name, or
    when some run of that name has a conclusion other than success. *)
Definition check_unsatisfied (checks : list CheckRun) (required : string) : bool :=
  negb (existsb (named required) checks)
  || existsb (fun c => named required c && negb (succeeded c)) checks.

Definition is_fork (pr : PullRequest) : bool :=
  negb (String.eqb (repo_full_name (repo (head pr)))
                   (repo_full_name (repo (base pr)))).

(** The skip conditions other than the one on required checks. *)
Definition skip_otherwise (cfg : Config) (pr : PullRequest)
           (reviews : list Review) : bool :=
  negb (String.eqb (state pr) "open")
  || merged pr
  || (is_fork pr && negb (mergeForks cfg))
  || existsb (fun l => includes_string (blocking (mergeLabels cfg)) (label_name l))
       (labels pr)
  || existsb (fun r => negb (includes_string (map label_name (labels pr)) r))
       (required (mergeLabels cfg))
  || (mergeRequireApproval cfg && Nat.eqb (countApprovals reviews) 0).

(** The disjunction of all skip conditions, given the fetched check runs
    and reviews. *)
Definition skip_conditions (cfg : Config) (pr : PullRequest)
           (checks : list CheckRun) (reviews : list Review) : bool :=
  skip_otherwise cfg pr reviews
  || match mergeRequireStatuses cfg with
     | Some names => existsb (check_unsatisfied checks) names
     | None => false
     end.

Definition not_merge_call (e : Event) : bool := negb (is_merge_call e).

Definition any_event (e : Event) : bool := true.

(** [m] only adds to the trace, and every event it adds satisfies [P]. *)
Definition emits {Remote A : Type} (P : Event -> bool) (m : @M Remote A) : Prop :=
  forall w, exists evs,
    trace (snd (m w)) = (evs ++ trace w)%list /\ forallb P evs = true.

(** Run from [w], [m] returns [v] and leaves the remote service in the
    state [rem]. *)
Definition yields {Remote A : Type} (m : @M Remote A) (w : World Remote)
           (v : A) (rem : Remote) : Prop :=
  fst (m w) = Ok v /\ remote (snd (m w)) = rem.

(** The answers of the remote service to the two requests of the
    eligibility check. *)
Definition checks_answer {Remote : Type} (ctx : Context Remote) (pr : PullRequest)
  : Remote -> result (option (list CheckRun)) * Remote :=
  request_check_runs (octokit ctx) (login (repo_owner (repo (base pr))))
    (repo_name (repo (base pr))) (sha (head pr)).

Definition reviews_answer {Remote : Type} (ctx : Context Remote) (pr : PullRequest)
  : Remote -> result (list Review) * Remote :=
  request_reviews (octokit ctx) (login (repo_owner (repo (base pr))))
    (repo_name (repo (base pr))) (number pr).

(** From the state [r] of the remote service, the eligibility check
    fetches the check runs [checks] when required checks are configured,
    then the reviews [reviews] when an approval is required, both fetches
    succeed, and the remote service is left in the state [r']. *)
Definition fetched {Remote : Type} (ctx : Context Remote) (pr : PullRequest)
           (r : Remote) (checks : list CheckRun) (reviews : list Review)
           (r' : Remote) : Prop :=
  exists r1,
    match mergeRequireStatuses (config ctx) with
    | Some _ =>
        exists response,
          checks_answer ctx pr r = (Ok response, r1)
          /\ checks = match response with Some runs => runs | None => [] end
    | None => r1 = r /\ checks = []
    end
    /\ if mergeRequireApproval (config ctx)
       then reviews_answer ctx pr r1 = (Ok reviews, r')
       else r' = r1 /\ reviews = [].

(** The effect of one check run on [(foundStatus, skip)]. *)
Definition scan_step (required : string) (st : bool * bool) (c : CheckRun)
  : bool * bool :=
  if named required c then (true, negb (succeeded c) || snd st) else st.

(** ** Readings of the trace *)

Definition is_log (e : Event) : bool :=
  match e with
  | EvLog _ _ => true
  | _ => false
  end.

Fixpoint calls_of (evs : list Event) : list Call :=
  match evs with
  | [] => []
  | EvCall c :: evs' => c :: calls_of evs'
  | _ :: evs' => calls_of evs'
  end.

(** The calls among the events [evs], which are most recent first, in the
    order in which they were made. *)
Definition calls_made (evs : list Event) : list Call := rev (calls_of evs).

(** A log, or one of the two requests of the eligibility check, addressed
    to the base repository with the head commit or the number of [pr]. *)
Definition is_eligibility_read (pr : PullRequest) (e : Event) : bool :=
  match e with
  | EvLog _ _ => true
  | EvCall (GetCheckRuns o r s) =>
      String.eqb o (login (repo_owner (repo (base pr))))
      && String.eqb r (repo_name (repo (base pr)))
      && String.eqb s (sha (head pr))
  | EvCall (GetReviews o r n) =>
      String.eqb o (login (repo_owner (repo (base pr))))
      && String.eqb r (repo_name (repo (base pr)))
      && N.eqb n (number pr)
  | _ => false
  end.

(** A log, a sleep, or a fetch of [pr] from its base repository. *)
Definition is_refetch (pr : PullRequest) (e : Event) : bool :=
  match e with
  | EvLog _ _ => true
  | EvSleep _ => true
  | EvCall (PullsGet o r n) =>
      String.eqb o (login (repo_owner (repo (base pr))))
      && String.eqb r (repo_name (repo (base pr)))
      && N.eqb n (number pr)
  | _ => false
  end.

(** The calls of the clean-up after a merge. *)
Definition is_cleanup_call (e : Event) : bool :=
  match e with
  | EvCall (IssuesRemoveLabel _ _ _ _) => true
  | EvCall (ReposGetBranch _ _ _) => true
  | EvCall (GitDeleteRef _ _ _) => true
  | _ => false
  end.

Definition not_cleanup_call (e : Event) : bool := negb (is_cleanup_call e).

(** Neither the lookup nor the deletion of a branch. *)
Definition not_branch_call (e : Event) : bool :=
  match e with
  | EvCall (ReposGetBranch _ _ _) => false
  | EvCall (GitDeleteRef _ _ _) => false
  | _ => true
  end.

(** Neither a merge call nor a call of the clean-up. *)
Definition is_passive (e : Event) : bool :=
  negb (is_merge_call e) && negb (is_cleanup_call e).

(** The second attempt function that [tryMerge] hands to [retry]
    (lines 280 to 292). *)
Definition retryMergeAttempt {Remote : Type} (octokit : Octokit Remote)
           (pullRequest : PullRequest) (head : string) (mergeMethod : string)
           (commitMessage : value) : @M Remote outcome :=
  bind (getPullRequest octokit pullRequest)
    (fun pr =>
       if merged pr then ret Success
       else mergePullRequest octokit pullRequest head mergeMethod commitMessage).


(** One of the reasons for which the eligibility check skips [pr], given
    the check runs and the reviews it fetched. *)
Definition skip_cause (cfg : Config) (pr : PullRequest) (checks : list CheckRun)
           (reviews : list Review) : Prop :=
  state pr <> "open"
  \/ merged pr = true
  \/ (repo_full_name (repo (head pr)) <> repo_full_name (repo (base pr))
      /\ mergeForks cfg = false)
  \/ (exists l, In l (labels pr) /\ In (label_name l) (blocking (mergeLabels cfg)))
  \/ (exists r, In r (required (mergeLabels cfg))
                /\ ~ In r (map label_name (labels pr)))
  \/ (exists names r,
         mergeRequireStatuses cfg = Some names /\ In r names
         /\ ((forall c, In c checks -> check_name c <> r)
             \/ (exists c, In c checks /\ check_name c = r
                           /\ conclusion c <> VStr "success")))
  \/ (mergeRequireApproval cfg = true
      /\ forall r, In r reviews -> review_state r <> "APPROVED").

(** ** Sample data: a stateless remote service and a pull request *)

Module Fixtures.

Definition octo : Owner := mkOwner "octo".

Definition app : Repo := mkRepo "octo/app" "app" octo.

Definition pr0 : PullRequest :=
  mkPullRequest 42 "Add feature" (VStr "Details here") "open" false
    (VStr "clean") (mkRef "abc123" "feature" app) (mkRef "def456" "main" app)
    (mkOwner "alice") [mkLabel "automerge"].

Definition with_mergeable_state (pr : PullRequest) (v : value) : PullRequest :=
  mkPullRequest (number pr) (title pr) (body pr) (state pr) (merged pr) v
    (head pr) (base pr) (user pr) (labels pr).

Definition with_state (pr : PullRequest) (s : string) : PullRequest :=
  mkPullRequest (number pr) (title pr) (body pr) s (merged pr)
    (mergeable_state pr) (head pr) (base pr) (user pr) (labels pr).

Definition with_title (pr : PullRequest) (t : string) : PullRequest :=
  mkPullRequest (number pr) t (body pr) (state pr) (merged pr)
    (mergeable_state pr) (head pr) (base pr) (user pr) (labels pr).

Definition cfg0 : Config :=
  mkConfig false (mkMergeLabels ["wip"] ["automerge"]) None false false
    "merge" "automatic" None None ["automerge"] 3 1000 true.

Definition with_statuses (cfg : Config) (names : option (list string)) : Config :=
  mkConfig (mergeForks cfg) (mergeLabels cfg) names (mergeRequireApproval cfg)
    (failOnMergeSkip cfg) (mergeMethod cfg) (mergeCommitMessage cfg)
    (mergeCommitMessageRegex cfg) (mergeFilterAuthor cfg) (mergeRemoveLabels cfg)
    (mergeRetries cfg) (mergeRetrySleep cfg) (mergeDeleteBranch cfg).

Definition with_failOnMergeSkip (cfg : Config) (b : bool) : Config :=
  mkConfig (mergeForks cfg) (mergeLabels cfg) (mergeRequireStatuses cfg)
    (mergeRequireApproval cfg) b (mergeMethod cfg) (mergeCommitMessage cfg)
    (mergeCommitMessageRegex cfg) (mergeFilterAuthor cfg) (mergeRemoveLabels cfg)
    (mergeRetries cfg) (mergeRetrySleep cfg) (mergeDeleteBranch cfg).

Definition with_regex (cfg : Config) (p : option RegExp.Pattern) : Config :=
  mkConfig (mergeForks cfg) (mergeLabels cfg) (mergeRequireStatuses cfg)
    (mergeRequireApproval cfg) (failOnMergeSkip cfg) (mergeMethod cfg)
    (mergeCommitMessage cfg) p (mergeFilterAuthor cfg) (mergeRemoveLabels cfg)
    (mergeRetries cfg) (mergeRetrySleep cfg) (mergeDeleteBranch cfg).

Definition with_mode (cfg : Config) (mode : string) : Config :=
  mkConfig (mergeForks cfg) (mergeLabels cfg) (mergeRequireStatuses cfg)
    (mergeRequireApproval cfg) (failOnMergeSkip cfg) (mergeMethod cfg)
    mode (mergeCommitMessageRegex cfg) (mergeFilterAuthor cfg)
    (mergeRemoveLabels cfg) (mergeRetries cfg) (mergeRetrySleep cfg)
    (mergeDeleteBranch cfg).

Definition with_author (cfg : Config) (a : option string) : Config :=
  mkConfig (mergeForks cfg) (mergeLabels cfg) (mergeRequireStatuses cfg)
    (mergeRequireApproval cfg) (failOnMergeSkip cfg) (mergeMethod cfg)
    (mergeCommitMessage cfg) (mergeCommitMessageRegex cfg) a
    (mergeRemoveLabels cfg) (mergeRetries cfg) (mergeRetrySleep cfg)
    (mergeDeleteBranch cfg).

(** A remote service without state, which gives the same answer to
    every call of an operation. *)
Definition fake (pr : PullRequest) (merge_answer : result unit)
           (label_answer : result unit) (branch_answer : result Branch)
           (delete_answer : result unit) (checks : option (list CheckRun))
           (reviews : list Review) : Octokit unit :=
  mkOctokit unit
    (fun _ _ _ r => (Ok pr, r))
    (fun _ _ _ _ _ _ _ r => (merge_answer, r))
    (fun _ _ _ _ r => (label_answer, r))
    (fun _ _ _ r => (branch_answer, r))
    (fun _ _ _ r => (delete_answer, r))
    (fun _ _ _ r => (Ok checks, r))
    (fun _ _ _ r => (Ok reviews, r)).

Definition w0 : World unit := mkWorld tt [].

(** A remote service on which every operation succeeds. *)
Definition obliging (checks : option (list CheckRun)) (reviews : list Review)
  : Octokit unit :=
  fake pr0 (Ok tt) (Ok tt) (Ok (mkBranch "feature" false)) (Ok tt) checks reviews.

(** Two successful runs of the same check. *)
Definition ci_twice : list CheckRun :=
  [mkCheckRun "ci" (VStr "success"); mkCheckRun "ci" (VStr "success")].

Definition ctx_ci (runs : list CheckRun) : Context unit :=
  mkContext (obliging (Some runs) []) (with_statuses cfg0 (Some ["ci"])).

(** A pattern with a capturing group, and a body that it matches only
    when letter case is ignored. *)
Definition notes_pattern : RegExp.Pattern :=
  RegExp.mkPattern "notes:(.*)"
    (RegExp.Seq (RegExp.literal "notes:")
       (RegExp.Group (RegExp.Star true RegExp.Dot))).

(** A pattern without a capturing group. *)
Definition bare_pattern : RegExp.Pattern :=
  RegExp.mkPattern "Details" (RegExp.literal "Details").

Definition ctx_regex (p : RegExp.Pattern) (mode : string) : Context unit :=
  mkContext (obliging None []) (with_mode (with_regex cfg0 (Some p)) mode).

Definition ctx_author (author : string) (failOnSkip : bool) : Context unit :=
  mkContext (obliging None [])
    (with_failOnMergeSkip (with_author cfg0 (Some author)) failOnSkip).

(** A remote service on which label removal and branch lookup fail. *)
Definition ctx_failing_cleanup : Context unit :=
  mkContext
    (fake pr0 (Ok tt) (Throw (mkError (VStr "Label does not exist")))
       (Throw (mkError (VStr "Branch not found"))) (Ok tt) None [])
    cfg0.

Definition pr_upper : PullRequest := set_body pr0 (VStr "NOTES: Fix").

Definition pr_notes : PullRequest :=
  set_body pr0 (VStr "Release notes: Fix the bug  ").

(** The world in which [merge] finds [pr] ready. *)
Definition ready_world (ctx : Context unit) (pr : PullRequest) : World unit :=
  snd (waitUntilReady (octokit ctx) pr (mergeRetries (config ctx))
         (mergeRetrySleep (config ctx))
         (snd (announce pr (snd (skipPullRequest ctx pr w0))))).

Definition ctx_fail_on_skip (b : bool) : Context unit :=
  mkContext (obliging None []) (with_failOnMergeSkip cfg0 b).

(** The message of the remote service when a branch protection rule
    asks for several approving reviews. *)
(** A remote service on which the removal of a label is refused. *)
Definition refusing_labels : Octokit unit :=
  fake pr0 (Ok tt) (Throw (mkError (VStr "Label does not exist")))
    (Ok (mkBranch "feature" false)) (Ok tt) None [].

Definition pr_labelled : PullRequest :=
  mkPullRequest 42 "Add feature" (VStr "Details here") "open" false
    (VStr "clean") (mkRef "abc123" "feature" app) (mkRef "def456" "main" app)
    (mkOwner "alice") [mkLabel "automerge"; mkLabel "bug"; mkLabel "ready"].

(** A remote service on which the check runs cannot be fetched. *)
Definition ctx_checks_down : Context unit :=
  mkContext
    (mkOctokit unit
       (fun _ _ _ r => (Ok pr0, r))
       (fun _ _ _ _ _ _ _ r => (Ok tt, r))
       (fun _ _ _ _ r => (Ok tt, r))
       (fun _ _ _ r => (Ok (mkBranch "feature" false), r))
       (fun _ _ _ r => (Ok tt, r))
       (fun _ _ _ r => (Throw (mkError (VStr "Service unavailable")), r))
       (fun _ _ _ r => (Ok [], r)))
    (with_statuses cfg0 (Some ["ci"])).

(** A remote service on which the reviews cannot be fetched, and a
    configuration that requires an approval. *)
Definition ctx_reviews_down : Context unit :=
  mkContext
    (mkOctokit unit
       (fun _ _ _ r => (Ok pr0, r))
       (fun _ _ _ _ _ _ _ r => (Ok tt, r))
       (fun _ _ _ _ r => (Ok tt, r))
       (fun _ _ _ r => (Ok (mkBranch "feature" false), r))
       (fun _ _ _ r => (Ok tt, r))
       (fun _ _ _ r => (Ok None, r))
       (fun _ _ _ r => (Throw (mkError (VStr "Service unavailable")), r)))
    (mkConfig false (mkMergeLabels ["wip"] ["automerge"]) None true false
       "merge" "automatic" None None ["automerge"] 3 1000 true).

(** A remote service on which the merge is refused for lack of a review,
    and on which the pull request is reported as merged. *)
Definition ctx_review_needed : Octokit unit :=
  fake (mkPullRequest 42 "Add feature" (VStr "Details here") "closed" true
          (VStr "unknown") (mkRef "abc123" "feature" app)
          (mkRef "def456" "main" app) (mkOwner "alice") [mkLabel "automerge"])
    (Throw (mkError
              (VStr "At least 1 approving review is required by reviewers with write access.")))
    (Ok tt) (Ok (mkBranch "feature" false)) (Ok tt) None [].

(** A remote service on which the merge never goes through. *)
Definition ctx_merge_refused : Context unit :=
  mkContext
    (fake pr0
       (Throw (mkError
                 (VStr "At least 1 approving review is required by reviewers with write access.")))
       (Ok tt) (Ok (mkBranch "feature" false)) (Ok tt) None [])
    cfg0.

Definition reviews_missing : Error :=
  mkError
    (VStr "At least 2 approving reviews are required by reviewers with write access.").

(** A pull request opened from a fork. *)
Definition pr_fork : PullRequest :=
  mkPullRequest 42 "Add feature" (VStr "Details here") "open" false
    (VStr "clean") (mkRef "abc123" "feature" (mkRepo "mona/app" "app" (mkOwner "mona")))
    (mkRef "def456" "main" app) (mkOwner "mona") [mkLabel "automerge"].

(** A remote service on which every operation succeeds and the branch of
    the pull request is [b]. *)
Definition with_branch (b : Branch) : Octokit unit :=
  fake pr0 (Ok tt) (Ok tt) (Ok b) (Ok tt) None [].

End Fixtures.

(** ** Properties *)

(** *** Strings *)

Lemma prefix_spec (p s : string) :
  String.prefix p s = true <-> exists rest, s = p ++ rest.
Proof.
  revert s. induction p as [|c p IH]; intros s.
  - split; [intros _; now exists s | intros _; now destruct s].
  - destruct s as [|d s]; simpl.
    + split; [discriminate | intros [rest H]; discriminate].
    + destruct (ascii_dec c d) as [->|Hne].
      * rewrite IH. split; intros [rest H]; exists rest.
        -- now rewrite H.
        -- now injection H.
      * split; [discriminate | intros [rest H]; injection H; intros; congruence].
Qed.

Lemma String_includes_spec (s pat : string) :
  String_includes s pat = true <-> Contains s pat.
Proof.
  unfold Contains. induction s as [|c s IH].
  - cbn [String_includes]. rewrite orb_false_r, prefix_spec. split.
    + intros [rest H]. now exists "", rest.
    + intros [before [after H]]. destruct before; [now exists after | discriminate].
  - cbn [String_includes]. rewrite orb_true_iff, prefix_spec, IH. split.
    + intros [[rest H] | [before [after H]]].
      * now exists "", rest.
      * exists (String c before), after. simpl. now rewrite H.
    + intros [before [after H]]. destruct before as [|d before].
      * left. now exists after.
      * right. exists before, after. simpl in H. now injection H.
Qed.

Lemma loose_eq_string_spec (v : value) (s : string) :
  loose_eq_string v s = true <-> v = VStr s.
Proof.
  destruct v; simpl; try (split; [discriminate | intros H; discriminate]).
  rewrite String.eqb_eq. split; [now intros -> | now intros [= ->]].
Qed.

Lemma includes_string_spec (l : list string) (s : string) :
  includes_string l s = true <-> In s l.
Proof.
  unfold includes_string. rewrite existsb_exists. split.
  - intros [x [Hin Heq]]. apply String.eqb_eq in Heq. now subst.
  - intros Hin. exists s. split; [assumption | apply String.eqb_refl].
Qed.

Lemma Array_includes_spec (l : list string) (v : value) :
  Array_includes l v = true <-> exists s, v = VStr s /\ In s l.
Proof.
  unfold Array_includes. rewrite existsb_exists. split.
  - intros [x [Hin Heq]]. destruct v; try discriminate.
    simpl in Heq. apply String.eqb_eq in Heq. subst. now exists s.
  - intros [s [-> Hin]]. exists s. split; [assumption | simpl; apply String.eqb_refl].
Qed.

(** *** The bound on the iterations of a quantifier *)

Section MatcherFuel.

Import RegExp.

Variable fl : Flags.
Variable input : list ascii.

Lemma repeat_star_forward (step : cont -> mstate -> option mstate)
      (greedy : bool) (gi n fuel : nat) :
  forward input step -> forward input (fun k x => repeat_star step greedy gi n k fuel x).
Proof.
  intros Hstep. induction fuel as [|fuel IH]; intros k k' x Hx Hk.
  - simpl. now rewrite (Hk x (le_n _) Hx).
  - cbn [repeat_star]. rewrite (Hk x (le_n _) Hx).
    rewrite (Hstep _
               (fun y => if Nat.eqb (endIndex y) (endIndex x) then None
                         else repeat_star step greedy gi n k' fuel y)
               (mkState (endIndex x) (clear_caps gi n (caps x))) Hx);
      [reflexivity|].
    intros y Hle Hy. simpl in Hle. destruct (Nat.eqb _ _); [reflexivity|].
    apply IH; [assumption|]. intros z Hz Hrz. apply Hk; [lia | assumption].
Qed.

Lemma matcher_upto_forward (r : regex) (fuel gi : nat) :
  forward input (matcher_upto fuel fl input r gi).
Proof.
  revert gi. induction r as [ | c | | | | r1 IH1 r2 IH2 | r1 IH1 r2 IH2
                            | greedy r1 IH1 | r1 IH1 ];
    intros gi k k' x Hx Hk; cbn [matcher_upto].
  - apply Hk; [lia | assumption].
  - destruct (nth_error input (endIndex x)) as [d|] eqn:Hd; [|reflexivity].
    destruct (N.eqb _ _); [|reflexivity].
    apply Hk; [simpl; lia|]. unfold RegExp.in_range. simpl.
    apply Nat.le_succ_l. apply nth_error_Some. now rewrite Hd.
  - destruct (nth_error input (endIndex x)) as [d|] eqn:Hd; [|reflexivity].
    destruct (_ || _); [|reflexivity].
    apply Hk; [simpl; lia|]. unfold RegExp.in_range. simpl.
    apply Nat.le_succ_l. apply nth_error_Some. now rewrite Hd.
  - rewrite (Hk x (le_n _) Hx). reflexivity.
  - rewrite (Hk x (le_n _) Hx). reflexivity.
  - apply IH1; [assumption|]. intros y Hle Hy.
    apply IH2; [assumption|]. intros z Hz Hrz. apply Hk; [lia | assumption].
  - now rewrite (IH1 gi k k' x Hx Hk), (IH2 (gi + ngroups r1) k k' x Hx Hk).
  - apply (repeat_star_forward _ greedy gi (ngroups r1) fuel (IH1 gi));
      assumption.
  - apply IH1; [assumption|]. intros y Hle Hy. apply Hk; [simpl; lia | assumption].
Qed.

Lemma repeat_star_strict (step : cont -> mstate -> option mstate)
      (greedy : bool) (gi n fuel : nat) :
  forward input step -> strict input step ->
  strict input (fun k x => repeat_star step greedy gi n k fuel x).
Proof.
  intros Hl Hs. induction fuel as [|fuel IH]; intros x Hx.
  - simpl. now destruct greedy.
  - cbn [repeat_star].
    rewrite (Hl _ (fun _ => None)
               (mkState (endIndex x) (clear_caps gi n (caps x))) Hx).
    + destruct greedy; rewrite Hs by exact Hx; reflexivity.
    + intros y Hle Hy. destruct (Nat.eqb _ _); [reflexivity | now apply IH].
Qed.

Lemma matcher_upto_strict (r : regex) (fuel gi : nat) :
  strict input (matcher_upto fuel fl input r gi).
Proof.
  revert gi. induction r as [ | c | | | | r1 IH1 r2 IH2 | r1 IH1 r2 IH2
                            | greedy r1 IH1 | r1 IH1 ];
    intros gi x Hx; cbn [matcher_upto].
  - reflexivity.
  - destruct (nth_error _ _); [|reflexivity]. now destruct (N.eqb _ _).
  - destruct (nth_error _ _); [|reflexivity]. now destruct (_ || _).
  - destruct (endIndex x); [reflexivity|].
    destruct (nth_error _ _); [|reflexivity]. now destruct (_ && _).
  - destruct (nth_error _ _); [|reflexivity]. now destruct (_ && _).
  - rewrite (matcher_upto_forward r1 fuel gi _ (fun _ => None) x Hx).
    + now apply IH1.
    + intros y _ Hy. now apply IH2.
  - now rewrite IH1, IH2.
  - apply (repeat_star_strict _ greedy gi (ngroups r1) fuel);
      [apply matcher_upto_forward | apply IH1 | assumption].
  - now apply IH1.
Qed.

(** One more iteration allowed changes nothing once the iterations
    allowed are as many as the code units left. *)
Lemma repeat_star_one_more (step : cont -> mstate -> option mstate)
      (greedy : bool) (gi n : nat) (k : cont) :
  forward input step -> strict input step ->
  forall fuel x,
    in_range input x -> length input - endIndex x <= fuel ->
    repeat_star step greedy gi n k fuel x
    = repeat_star step greedy gi n k (S fuel) x.
Proof.
  intros Hl Hs. induction fuel as [|fuel IH]; intros x Hx Hfuel.
  - cbn [repeat_star].
    rewrite (Hl _ (fun _ => None)
               (mkState (endIndex x) (clear_caps gi n (caps x))) Hx).
    + destruct greedy; rewrite Hs by exact Hx; reflexivity.
    + intros y Hle Hy. simpl in Hle. unfold in_range in Hx, Hy.
      replace (Nat.eqb (endIndex y) (endIndex x)) with true; [reflexivity|].
      symmetry. apply Nat.eqb_eq. lia.
  - cbn [repeat_star].
    rewrite (Hl _
               (fun y => if Nat.eqb (endIndex y) (endIndex x) then None
                         else repeat_star step greedy gi n k (S fuel) y)
               (mkState (endIndex x) (clear_caps gi n (caps x))) Hx);
      [reflexivity|].
    intros y Hle Hy. simpl in Hle.
    destruct (Nat.eqb (endIndex y) (endIndex x)) eqn:He; [reflexivity|].
    apply Nat.eqb_neq in He. apply IH; [assumption | lia].
Qed.

Lemma repeat_star_enough (step : cont -> mstate -> option mstate)
      (greedy : bool) (gi n : nat) (k : cont) (fuel more : nat) (x : mstate) :
  forward input step -> strict input step ->
  in_range input x -> length input - endIndex x <= fuel ->
  repeat_star step greedy gi n k (more + fuel) x
  = repeat_star step greedy gi n k fuel x.
Proof.
  intros Hl Hs Hx Hfuel. induction more as [|more IH]; [reflexivity|].
  simpl. rewrite <- IH. symmetry.
  apply repeat_star_one_more; [assumption | assumption | assumption | lia].
Qed.

Lemma repeat_star_step (step step' : cont -> mstate -> option mstate)
      (greedy : bool) (gi n : nat) :
  forward input step' ->
  (forall k x, in_range input x -> step k x = step' k x) ->
  forall fuel k x,
    in_range input x ->
    repeat_star step greedy gi n k fuel x
    = repeat_star step' greedy gi n k fuel x.
Proof.
  intros Hl Heq. induction fuel as [|fuel IH]; intros k x Hx; [reflexivity|].
  cbn [repeat_star]. rewrite Heq; [|exact Hx].
  rewrite (Hl _
             (fun y => if Nat.eqb (endIndex y) (endIndex x) then None
                       else repeat_star step' greedy gi n k fuel y)
             (mkState (endIndex x) (clear_caps gi n (caps x))) Hx);
    [reflexivity|].
  intros y _ Hy. destruct (Nat.eqb _ _); [reflexivity | now apply IH].
Qed.

(** Allowing a quantifier more than [length input] iterations gives the
    same result: the bound in [matcher] never cuts a match short. *)
Theorem matcher_upto_enough (r : regex) (more gi : nat) (k : cont) (x : mstate) :
  in_range input x ->
  matcher_upto (more + length input) fl input r gi k x
  = matcher fl input r gi k x.
Proof.
  unfold matcher. revert gi k x.
  induction r as [ | c | | | | r1 IH1 r2 IH2 | r1 IH1 r2 IH2
                 | greedy r1 IH1 | r1 IH1 ];
    intros gi k x Hx; cbn [matcher_upto]; try reflexivity.
  - rewrite IH1; [|assumption].
    apply matcher_upto_forward; [assumption|]. intros y _ Hy. now apply IH2.
  - now rewrite IH1, IH2.
  - rewrite (repeat_star_step _ (matcher_upto (length input) fl input r1 gi));
      [ | apply matcher_upto_forward | intros k' y Hy; now apply IH1 | assumption].
    apply repeat_star_enough;
      [apply matcher_upto_forward | apply matcher_upto_strict | assumption | lia].
  - now apply IH1.
Qed.

End MatcherFuel.

(** *** The pattern matcher on examples *)

Example exec_greedy_group :
  RegExp.exec
    (RegExp.new
       (RegExp.mkPattern "a(b*)c"
          (RegExp.Seq (RegExp.Char "a")
             (RegExp.Seq (RegExp.Group (RegExp.Star true (RegExp.Char "b")))
                (RegExp.Char "c"))))
       "sm")
    "xxabbbcabc"
  = Some (RegExp.mkMatch 2 "abbbc" [Some "bbb"]).
Proof. vm_compute. reflexivity. Qed.

Example exec_group_not_taken :
  RegExp.exec
    (RegExp.new
       (RegExp.mkPattern "(a)|b"
          (RegExp.Alt (RegExp.Group (RegExp.Char "a")) (RegExp.Char "b")))
       "sm")
    "b"
  = Some (RegExp.mkMatch 0 "b" [None]).
Proof. vm_compute. reflexivity. Qed.

Example exec_line_anchors :
  RegExp.exec
    (RegExp.new
       (RegExp.mkPattern "^b(.*)$"
          (RegExp.Seq RegExp.Bol
             (RegExp.Seq (RegExp.Char "b")
                (RegExp.Seq (RegExp.Group (RegExp.Star true RegExp.Dot))
                   RegExp.Eol))))
       "m")
    ("a" ++ LF ++ "bcd" ++ LF ++ "e")
  = Some (RegExp.mkMatch 2 "bcd" [Some "cd"]).
Proof. vm_compute. reflexivity. Qed.

Example exec_dot_all :
  RegExp.exec
    (RegExp.new
       (RegExp.mkPattern "^b(.*)$"
          (RegExp.Seq RegExp.Bol
             (RegExp.Seq (RegExp.Char "b")
                (RegExp.Seq (RegExp.Group (RegExp.Star true RegExp.Dot))
                   RegExp.Eol))))
       "sm")
    ("a" ++ LF ++ "bcd" ++ LF ++ "e")
  = Some (RegExp.mkMatch 2 ("bcd" ++ LF ++ "e") [Some ("cd" ++ LF ++ "e")]).
Proof. vm_compute. reflexivity. Qed.

Example replace_every_match :
  RegExp.replace "aaa" (RegExp.new (RegExp.mkPattern "a" (RegExp.Char "a")) "g") "-"
  = "---".
Proof. vm_compute. reflexivity. Qed.

Example replace_first_match :
  RegExp.replace "aaa" (RegExp.new (RegExp.mkPattern "a" (RegExp.Char "a")) "") "-"
  = "-aa".
Proof. vm_compute. reflexivity. Qed.

Example replace_empty_matches :
  RegExp.replace "ab"
    (RegExp.new (RegExp.mkPattern "x*" (RegExp.Star true (RegExp.Char "x"))) "g") "-"
  = "-a-b-".
Proof. vm_compute. reflexivity. Qed.

Example replace_matched_text :
  RegExp.replace "abc" (RegExp.new (RegExp.mkPattern "b" (RegExp.Char "b")) "g")
    "[$&|$`|$'|$$|$1]"
  = "a[b|a|c|$|$1]c".
Proof. vm_compute. reflexivity. Qed.

Example trim_both_ends :
  trim ("  ab c" ++ LF ++ " ") = "ab c".
Proof. vm_compute. reflexivity. Qed.

(** *** Readiness classification *)

(** C1. The readiness classifier yields the ready outcome when the
    mergeable state is clean, has_hooks, unknown or unstable, or is null or
    absent; the not-ready outcome when it is dirty or draft; and the retry
    outcome for any other string. *)
Theorem checkReady_classifies {Remote : Type} (pr : PullRequest) (w : World Remote) :
  (In (mergeable_state pr)
      [VStr "clean"; VStr "has_hooks"; VStr "unknown"; VStr "unstable";
       VNull; VUndefined] ->
   fst (checkReady pr w) = Ok Success)
  /\ (In (mergeable_state pr) [VStr "dirty"; VStr "draft"] ->
      fst (checkReady pr w) = Ok Failure)
  /\ (forall s,
         mergeable_state pr = VStr s ->
         ~ In s ["clean"; "has_hooks"; "unknown"; "unstable"; "dirty"; "draft"] ->
         fst (checkReady pr w) = Ok Retry).
Proof.
  unfold checkReady. repeat split.
  - intros H. simpl in H.
    repeat (destruct H as [<- | H]; [reflexivity|]). contradiction.
  - intros H. simpl in H.
    repeat (destruct H as [<- | H]; [reflexivity|]). contradiction.
  - intros s -> Hs.
    assert (Hm : Array_includes MAYBE_READY (VStr s) = false).
    { apply not_true_is_false. rewrite Array_includes_spec.
      intros [t [[= <-] Hin]]. apply Hs. simpl in *. tauto. }
    assert (Hn : Array_includes NOT_READY (VStr s) = false).
    { apply not_true_is_false. rewrite Array_includes_spec.
      intros [t [[= <-] Hin]]. apply Hs. simpl in *. tauto. }
    rewrite Hm, Hn. reflexivity.
Qed.

Lemma checkReady_classifies_witness :
  fst (checkReady Fixtures.pr0 Fixtures.w0) = Ok Success
  /\ fst (checkReady (Fixtures.with_mergeable_state Fixtures.pr0 (VStr "draft"))
            Fixtures.w0) = Ok Failure
  /\ fst (checkReady (Fixtures.with_mergeable_state Fixtures.pr0 (VStr "blocked"))
            Fixtures.w0) = Ok Retry.
Proof.
  split; [|split].
  - apply (proj1 (checkReady_classifies Fixtures.pr0 Fixtures.w0)).
    simpl. auto.
  - apply (proj1 (proj2 (checkReady_classifies
                           (Fixtures.with_mergeable_state Fixtures.pr0 (VStr "draft"))
                           Fixtures.w0))).
    simpl. auto.
  - apply (proj2 (proj2 (checkReady_classifies
                           (Fixtures.with_mergeable_state Fixtures.pr0 (VStr "blocked"))
                           Fixtures.w0)) "blocked").
    + reflexivity.
    + simpl. intros H. repeat (destruct H as [H | H]; [discriminate H|]). exact H.
Defined.

(** C2, as stated: an absent mergeable state would be classified as retry.
    It is classified as ready. *)
Lemma absent_state_is_not_retried :
  mergeable_state (Fixtures.with_mergeable_state Fixtures.pr0 VUndefined) = VUndefined
  /\ fst (checkReady (Fixtures.with_mergeable_state Fixtures.pr0 VUndefined)
            Fixtures.w0) <> Ok Retry.
Proof.
  split; [reflexivity | discriminate].
Qed.

(** C2, amended. For every pull-request snapshot whose mergeable state is
    absent, the readiness classifier yields the ready outcome, as it does
    for null. *)
Theorem checkReady_absent {Remote : Type} (pr : PullRequest) (w : World Remote) :
  mergeable_state pr = VUndefined ->
  fst (checkReady pr w) = Ok Success.
Proof.
  intros H. unfold checkReady. rewrite H. reflexivity.
Qed.

Lemma checkReady_absent_witness :
  fst (checkReady (Fixtures.with_mergeable_state Fixtures.pr0 VUndefined)
         Fixtures.w0) = Ok Success.
Proof.
  apply (checkReady_absent
           (Fixtures.with_mergeable_state Fixtures.pr0 VUndefined) Fixtures.w0).
  reflexivity.
Defined.

(** *** Classification of merge errors *)

(** C3, as stated: the failure outcome would be returned exactly when the
    message contains "review is required by reviewers with write access".
    The message about several missing reviews does not contain it and is
    classified as a failure. *)
Lemma checkMergeError_not_only_review_is_required :
  ~ (fst (checkMergeError (Some Fixtures.reviews_missing) Fixtures.w0) = Ok Failure
     <-> Contains (error_text (Some Fixtures.reviews_missing)) review_required).
Proof.
  intros [H _]. specialize (H eq_refl).
  apply String_includes_spec in H. vm_compute in H. discriminate H.
Qed.

(** C3, amended. The classifier of merge errors returns the failure outcome
    exactly when the error message contains "review is required by
    reviewers with write access" or "reviews are required by reviewers with
    write access", and the retry outcome for every other error message. *)
Theorem checkMergeError_classifies {Remote : Type} (e : option Error)
        (w : World Remote) :
  (Contains (error_text e) review_required
   \/ Contains (error_text e) reviews_required ->
   fst (checkMergeError e w) = Ok Failure)
  /\ (~ Contains (error_text e) review_required ->
      ~ Contains (error_text e) reviews_required ->
      fst (checkMergeError e w) = Ok Retry).
Proof.
  unfold checkMergeError. split.
  - intros H.
    assert (Hb : String_includes (error_text e) review_required
                 || String_includes (error_text e) reviews_required = true).
    { apply orb_true_iff. now rewrite !String_includes_spec. }
    rewrite Hb. reflexivity.
  - intros H1 H2.
    assert (Hb : String_includes (error_text e) review_required
                 || String_includes (error_text e) reviews_required = false).
    { apply not_true_is_false. rewrite orb_true_iff, !String_includes_spec. tauto. }
    rewrite Hb. reflexivity.
Qed.

Lemma checkMergeError_classifies_witness :
  fst (checkMergeError (Some Fixtures.reviews_missing) Fixtures.w0) = Ok Failure
  /\ fst (checkMergeError (Some (mkError (VStr "Base branch was modified")))
            Fixtures.w0) = Ok Retry.
Proof.
  split.
  - apply (proj1 (checkMergeError_classifies (Some Fixtures.reviews_missing)
                    Fixtures.w0)).
    right. apply String_includes_spec. vm_compute. reflexivity.
  - apply (proj2 (checkMergeError_classifies
                    (Some (mkError (VStr "Base branch was modified"))) Fixtures.w0)).
    + intros H. apply String_includes_spec in H. vm_compute in H. discriminate H.
    + intros H. apply String_includes_spec in H. vm_compute in H. discriminate H.
Defined.

(** *** Commit messages *)

Lemma getCommitMessage_automatic (pr : PullRequest) :
  getCommitMessage "automatic" pr = VUndefined.
Proof. reflexivity. Qed.

Lemma getCommitMessage_title (pr : PullRequest) :
  getCommitMessage "pull-request-title" pr = VStr (title pr).
Proof. reflexivity. Qed.

Lemma getCommitMessage_description (pr : PullRequest) :
  getCommitMessage "pull-request-description" pr = body pr.
Proof. reflexivity. Qed.

Lemma getCommitMessage_title_and_description (pr : PullRequest) :
  getCommitMessage "pull-request-title-and-description" pr
  = VStr (title pr ++ LF ++ LF ++ ToString (body pr)).
Proof. reflexivity. Qed.

Example getCommitMessage_template :
  getCommitMessage "PR #{pullRequest.number}: {pullRequest.title}" Fixtures.pr0
  = VStr "PR #42: Add feature".
Proof. vm_compute. reflexivity. Qed.

Example getCommitMessage_every_occurrence :
  getCommitMessage "{pullRequest.number} and {pullRequest.number}" Fixtures.pr0
  = VStr "42 and 42".
Proof. vm_compute. reflexivity. Qed.

(** C9, at the failing input. With the template
    "{pullRequest.title} (#{pullRequest.number})" and the title
    "Fix $$ handling", the placeholder of the title is not replaced by the
    title: the replacement text is read as a replacement pattern, in which
    "$$" stands for one "$". *)
Theorem getCommitMessage_rewrites_dollars :
  getCommitMessage "{pullRequest.title} (#{pullRequest.number})"
    (Fixtures.with_title Fixtures.pr0 "Fix $$ handling")
  = VStr "Fix $ handling (#42)".
Proof. vm_compute. reflexivity. Qed.

(** The dot of a placeholder pattern matches any character, so a text
    that is not a placeholder is replaced as well. *)
Example getCommitMessage_dot_is_a_wildcard :
  getCommitMessage "{pullRequest-title}" Fixtures.pr0 = VStr "Add feature".
Proof. vm_compute. reflexivity. Qed.

(** *** The events of a computation *)

Section Emits.

Context {Remote : Type}.
Variable P : Event -> bool.

Lemma emits_ret {A} (a : A) : emits P (@ret Remote A a).
Proof. intros w. now exists []. Qed.

Lemma emits_throw {A} (e : Error) : emits P (@throw Remote A e).
Proof. intros w. now exists []. Qed.

Lemma emits_emit (e : Event) : P e = true -> emits P (@emit Remote e).
Proof. intros H w. exists [e]. simpl. now rewrite H. Qed.

Lemma emits_call {A} (c : Call) (answer : Remote -> result A * Remote) :
  P (EvCall c) = true -> emits P (call c answer).
Proof.
  intros H w. exists [EvCall c]. unfold call.
  destruct (answer (remote w)). simpl. now rewrite H.
Qed.

Lemma emits_bind {A B} (m : @M Remote A) (k : A -> M B) :
  emits P m -> (forall a, emits P (k a)) -> emits P (bind m k).
Proof.
  intros Hm Hk w. unfold bind. destruct (Hm w) as [evs [Ht Hp]].
  destruct (m w) as [[a | e] w1]; simpl in Ht.
  - destruct (Hk a w1) as [evs' [Ht' Hp']]. exists (evs' ++ evs)%list.
    rewrite Ht', Ht, app_assoc, forallb_app, Hp, Hp'. now split.
  - exists evs. now split.
Qed.

Lemma emits_try_catch {A} (m : @M Remote A) (h : Error -> M A) :
  emits P m -> (forall e, emits P (h e)) -> emits P (try_catch m h).
Proof.
  intros Hm Hh w. unfold try_catch. destruct (Hm w) as [evs [Ht Hp]].
  destruct (m w) as [[a | e] w1]; simpl in Ht.
  - exists evs. now split.
  - destruct (Hh e w1) as [evs' [Ht' Hp']]. exists (evs' ++ evs)%list.
    rewrite Ht', Ht, app_assoc, forallb_app, Hp, Hp'. now split.
Qed.

Lemma emits_foldM {A S} (step : S -> A -> @M Remote S) (l : list A) :
  (forall s a, emits P (step s a)) -> forall s, emits P (foldM step l s).
Proof.
  intros Hstep. induction l as [|a l IH]; intros s; simpl.
  - apply emits_ret.
  - apply emits_bind; [apply Hstep | apply IH].
Qed.

Lemma emits_forEach {A} (l : list A) (step : A -> @M Remote unit) :
  (forall a, emits P (step a)) -> emits P (forEach l step).
Proof.
  intros Hstep. induction l as [|a l IH]; simpl.
  - apply emits_ret.
  - apply emits_bind; [apply Hstep | intros _; apply IH].
Qed.

Lemma emits_retry_loop (n : nat) (sleepMs : N) (retryAttempt : @M Remote outcome)
      (onExhausted : M unit) :
  P (EvSleep sleepMs) = true -> emits P retryAttempt -> emits P onExhausted ->
  emits P (retry_loop n sleepMs retryAttempt onExhausted).
Proof.
  intros Hs Hr He. induction n as [|n IH]; simpl.
  - apply emits_bind; [assumption | intros _; apply emits_ret].
  - apply emits_bind; [now apply emits_emit | intros _].
    apply emits_bind; [assumption | intros [ | | ]];
      [apply emits_ret | apply emits_ret | apply IH].
Qed.

Lemma emits_retry (maxAttempts : nat) (sleepMs : N)
      (immediateAttempt retryAttempt : @M Remote outcome) (onExhausted : M unit) :
  P (EvSleep sleepMs) = true ->
  emits P immediateAttempt -> emits P retryAttempt -> emits P onExhausted ->
  emits P (retry maxAttempts sleepMs immediateAttempt retryAttempt onExhausted).
Proof.
  intros Hs Hi Hr He. unfold retry.
  apply emits_bind; [assumption | intros [ | | ]];
    [apply emits_ret | apply emits_ret | now apply emits_retry_loop].
Qed.

End Emits.

(** One step of the proof that a computation emits only events of a
    kind: through a bind, a handler, a loop, a branch or a primitive. *)
Ltac emits_step :=
  first
    [ apply emits_retry; [reflexivity| | |]
    | apply emits_ret
    | apply emits_throw
    | apply emits_emit; reflexivity
    | apply emits_call; reflexivity
    | apply emits_bind; [|intros ?]
    | apply emits_try_catch; [|intros ?]
    | apply emits_foldM; intros ? ?
    | apply emits_forEach; intros ?
    | match goal with
      | |- emits _ (if ?b then _ else _) => destruct b
      | |- emits _ (match ?x with _ => _ end) => destruct x
      end ].

Ltac emits_auto := repeat emits_step.

Section EmittedByTheWorkflow.

Context {Remote : Type}.

Lemma checkReady_emits (P : Event -> bool) (pr : PullRequest) :
  (forall l args, P (EvLog l args) = true) ->
  emits P (@checkReady Remote pr).
Proof.
  intros HP. unfold checkReady, logger_info.
  repeat first [apply emits_emit; apply HP | emits_step].
Qed.

Lemma waitUntilReady_quiet (o : Octokit Remote) (pr : PullRequest)
      (n : nat) (ms : N) :
  emits not_merge_call (waitUntilReady o pr n ms).
Proof.
  unfold waitUntilReady, getPullRequest.
  emits_auto; apply checkReady_emits; reflexivity.
Qed.

Lemma skipPullRequest_quiet (ctx : Context Remote) (pr : PullRequest) :
  emits not_merge_call (skipPullRequest ctx pr).
Proof.
  unfold skipPullRequest, scanChecks, skip_when, fetchChecks, fetchReviews.
  emits_auto.
Qed.

Lemma applyCommitMessageRegex_quiet (p : option RegExp.Pattern) (pr : PullRequest) :
  emits not_merge_call (@applyCommitMessageRegex Remote p pr).
Proof.
  unfold applyCommitMessageRegex. emits_auto.
Qed.

End EmittedByTheWorkflow.

(** *** The result of a computation *)

Section Yields.

Context {Remote : Type}.

Lemma yields_ret {A} (a : A) (w : World Remote) :
  yields (ret a) w a (remote w).
Proof. now split. Qed.

Lemma yields_emit (e : Event) (w : World Remote) :
  yields (emit e) w tt (remote w).
Proof. now split. Qed.

Lemma yields_call {A} (c : Call) (answer : Remote -> result A * Remote)
      (w : World Remote) (a : A) (rem : Remote) :
  answer (remote w) = (Ok a, rem) -> yields (call c answer) w a rem.
Proof. intros H. unfold yields, call. now rewrite H. Qed.

Lemma yields_bind {A B} (m : @M Remote A) (k : A -> M B) (w : World Remote)
      (a : A) (r1 : Remote) (b : B) (r2 : Remote) :
  yields m w a r1 ->
  (forall w1, remote w1 = r1 -> yields (k a) w1 b r2) ->
  yields (bind m k) w b r2.
Proof.
  unfold yields, bind. intros [Hv Hr] Hk.
  destruct (m w) as [[a' | e] w1]; simpl in *; [|discriminate].
  injection Hv as ->. now apply Hk.
Qed.

Lemma yields_remote {A} (m : @M Remote A) (w : World Remote) (a : A)
      (rem : Remote) :
  yields m w a (remote w) -> remote w = rem -> yields m w a rem.
Proof. now intros H <-. Qed.

Lemma yields_skip_when (cond : bool) (args : list LogArg) (skip : bool)
      (w : World Remote) :
  yields (skip_when cond (logger_info args) skip) w (cond || skip) (remote w).
Proof. unfold skip_when. now destruct cond. Qed.

Lemma yields_foldM {A S} (step : S -> A -> @M Remote S) (f : S -> A -> S)
      (l : list A) :
  (forall s a w, yields (step s a) w (f s a) (remote w)) ->
  forall s w, yields (foldM step l s) w (fold_left f l s) (remote w).
Proof.
  intros Hstep. induction l as [|a l IH]; intros s w; simpl.
  - apply yields_ret.
  - eapply yields_bind; [apply Hstep|].
    intros w1 <-. apply IH.
Qed.

Lemma fold_left_orb {A} (c : A -> bool) (l : list A) (s : bool) :
  fold_left (fun s a => c a || s) l s = existsb c l || s.
Proof.
  revert s. induction l as [|a l IH]; intros s; simpl; [reflexivity|].
  rewrite IH. now destruct (c a), (existsb c l), s.
Qed.

Lemma fold_left_scan_step (required : string) (checks : list CheckRun)
      (found skip : bool) :
  fold_left (scan_step required) checks (found, skip)
  = (found || existsb (named required) checks,
     skip || existsb (fun c => named required c && negb (succeeded c)) checks).
Proof.
  revert found skip. induction checks as [|c checks IH]; intros found skip; simpl.
  - now rewrite !orb_false_r.
  - unfold scan_step at 2. destruct (named required c); simpl.
    + rewrite IH. rewrite orb_true_r. f_equal.
      now destruct (succeeded c), skip.
    + apply IH.
Qed.

Lemma yields_scanChecks (required : string) (checks : list CheckRun)
      (skip : bool) (w : World Remote) :
  yields (scanChecks required checks skip) w
    (existsb (named required) checks,
     skip || existsb (fun c => named required c && negb (succeeded c)) checks)
    (remote w).
Proof.
  unfold scanChecks.
  rewrite <- (orb_false_l (existsb (named required) checks)).
  rewrite <- fold_left_scan_step.
  apply yields_foldM. intros [found s] c w1. unfold scan_step, named, succeeded.
  destruct (String.eqb (check_name c) required); simpl.
  - eapply yields_bind; [apply yields_skip_when|].
    intros w2 <-. apply yields_ret.
  - apply yields_ret.
Qed.

Lemma yields_required_checks (checks : list CheckRun) (names : list string)
      (skip : bool) (w : World Remote) :
  yields
    (foldM
       (fun skip required =>
          bind (scanChecks required checks skip)
            (fun st =>
               let (foundStatus, skip) := (st : bool * bool) in
               skip_when (negb foundStatus)
                 (logger_info [LS "Skipping PR merge, required check is absent:";
                               LS required])
                 skip))
       names skip)
    w (existsb (check_unsatisfied checks) names || skip) (remote w).
Proof.
  rewrite <- fold_left_orb.
  apply yields_foldM with (f := fun s r => check_unsatisfied checks r || s).
  intros s r w1.
  eapply yields_bind; [apply yields_scanChecks|].
  intros w2 <-.
  replace (check_unsatisfied checks r || s)
    with (negb (existsb (named r) checks)
          || (s || existsb (fun c => named r c && negb (succeeded c)) checks)).
  - apply yields_skip_when.
  - unfold check_unsatisfied.
    now destruct (existsb (named r) checks), s,
      (existsb (fun c => named r c && negb (succeeded c)) checks).
Qed.

Lemma yields_fetchChecks (ctx : Context Remote) (pr : PullRequest)
      (w : World Remote) (response : option (list CheckRun)) (rem : Remote) :
  checks_answer ctx pr (remote w) = (Ok response, rem) ->
  yields (fetchChecks ctx pr) w
    (match response with Some runs => runs | None => [] end) rem.
Proof.
  intros H. unfold fetchChecks, logger_debug, logger_trace.
  eapply yields_bind; [apply yields_emit|]. intros w1 Hw1.
  eapply yields_bind; [apply yields_call; rewrite Hw1; exact H|]. intros w2 Hw2.
  eapply yields_bind; [apply yields_emit|]. intros w3 Hw3.
  rewrite <- Hw2, <- Hw3. apply yields_ret.
Qed.

Lemma yields_fetchReviews (ctx : Context Remote) (pr : PullRequest)
      (w : World Remote) (reviews : list Review) (rem : Remote) :
  reviews_answer ctx pr (remote w) = (Ok reviews, rem) ->
  yields (fetchReviews ctx pr) w reviews rem.
Proof.
  intros H. unfold fetchReviews, logger_debug, logger_trace.
  eapply yields_bind; [apply yields_emit|]. intros w1 Hw1.
  eapply yields_bind; [apply yields_call; rewrite Hw1; exact H|]. intros w2 Hw2.
  eapply yields_bind; [apply yields_emit|]. intros w3 Hw3.
  rewrite <- Hw2, <- Hw3. apply yields_ret.
Qed.

Lemma yields_foldM_skip_when {A} (c : A -> bool) (args : A -> list LogArg)
      (l : list A) (skip : bool) (w : World Remote) :
  yields (foldM (fun s a => skip_when (c a) (logger_info (args a)) s) l skip)
    w (existsb c l || skip) (remote w).
Proof.
  rewrite <- fold_left_orb.
  apply yields_foldM with (f := fun s a => c a || s).
  intros s a w1. apply yields_skip_when.
Qed.

Lemma yields_approval (ctx : Context Remote) (pr : PullRequest)
      (w : World Remote) (reviews : list Review) (rem : Remote) (skip : bool) :
  reviews_answer ctx pr (remote w) = (Ok reviews, rem) ->
  yields
    (bind (fetchReviews ctx pr)
       (fun approvals =>
          let numApprovals := countApprovals approvals in
          if Nat.eqb numApprovals 0 then
            bind (logger_info
                    [LS "Skipping PR merge, require approval but none found"])
              (fun _ => ret true)
          else
            bind (logger_debug [LS "Found"; LNum numApprovals; LS "approval(s)"])
              (fun _ => ret skip)))
    w (Nat.eqb (countApprovals reviews) 0 || skip) rem.
Proof.
  intros H. eapply yields_bind; [apply yields_fetchReviews; exact H|].
  intros w1 <-. cbv zeta.
  destruct (Nat.eqb (countApprovals reviews) 0); simpl;
    (eapply yields_bind; [apply yields_emit|]; intros w2 <-; apply yields_ret).
Qed.

(** The first five steps of the eligibility check, which fetch nothing. *)
Ltac through_labels ctx pr :=
  eapply yields_bind; [apply yields_skip_when|]; intros ?w ?Hw;
  eapply yields_bind; [apply yields_skip_when|]; intros ?w ?Hw;
  eapply yields_bind; [apply yields_skip_when|]; intros ?w ?Hw;
  eapply yields_bind;
  [apply (yields_foldM_skip_when
            (fun l => includes_string (blocking (mergeLabels (config ctx)))
                        (label_name l))
            (fun l => [LS "Skipping PR merge, blocking label present:";
                       LS (label_name l)]))|];
  intros ?w ?Hw;
  eapply yields_bind;
  [apply (yields_foldM_skip_when
            (fun r => negb (includes_string (map label_name (labels pr)) r))
            (fun r => [LS "Skipping PR merge, required label missing:"; LS r]))|];
  intros ?w ?Hw.

Ltac bool_cases :=
  simpl;
  repeat match goal with
    | |- context [existsb ?f ?l] => generalize (existsb f l); intros ?b
    | |- context [String.eqb ?x ?y] => generalize (String.eqb x y); intros ?b
    | |- context [Nat.eqb ?x ?y] => generalize (Nat.eqb x y); intros ?b
    | |- context [merged ?x] => generalize (merged x); intros ?b
    | |- context [mergeForks ?x] => generalize (mergeForks x); intros ?b
    end;
  repeat match goal with b : bool |- _ => destruct b end; reflexivity.

(** The eligibility check computes the disjunction of the skip conditions. *)
Lemma skipPullRequest_result (ctx : Context Remote) (pr : PullRequest)
      (w : World Remote) (checks : list CheckRun) (reviews : list Review)
      (r' : Remote) :
  fetched ctx pr (remote w) checks reviews r' ->
  yields (skipPullRequest ctx pr) w
    (skip_conditions (config ctx) pr checks reviews) r'.
Proof.
  intros [r1 [Hc Hr]].
  assert (H : exists v,
             yields (skipPullRequest ctx pr) w v r'
             /\ v = skip_conditions (config ctx) pr checks reviews).
  { unfold skipPullRequest, skip_conditions, skip_otherwise, is_fork.
    destruct (mergeRequireStatuses (config ctx)) as [names|];
      destruct (mergeRequireApproval (config ctx)).
    - destruct Hc as [response [Hc ->]]. eexists; split.
      + through_labels ctx pr.
        eapply yields_bind.
        { eapply yields_bind;
            [apply yields_fetchChecks;
             replace (remote w4) with (remote w) by congruence; exact Hc|].
          intros w5 Hw5.
          eapply yields_remote; [apply yields_required_checks | exact Hw5]. }
        intros w6 Hw6.
        eapply yields_bind; [apply yields_approval; rewrite Hw6; exact Hr|].
        intros w7 Hw7. split; [reflexivity | exact Hw7].
      + bool_cases.
    - destruct Hc as [response [Hc ->]]. destruct Hr as [-> ->]. eexists; split.
      + through_labels ctx pr.
        eapply yields_bind.
        { eapply yields_bind;
            [apply yields_fetchChecks;
             replace (remote w4) with (remote w) by congruence; exact Hc|].
          intros w5 Hw5.
          eapply yields_remote; [apply yields_required_checks | exact Hw5]. }
        intros w6 Hw6.
        eapply yields_bind; [apply yields_ret|].
        intros w7 Hw7. split; [reflexivity | simpl; congruence].
      + bool_cases.
    - destruct Hc as [-> ->]. eexists; split.
      + through_labels ctx pr.
        eapply yields_bind; [apply yields_ret|].
        intros w6 Hw6.
        eapply yields_bind;
          [apply yields_approval;
           replace (remote w6) with (remote w) by congruence; exact Hr|].
        intros w7 Hw7. split; [reflexivity | exact Hw7].
      + bool_cases.
    - destruct Hc as [-> ->]. destruct Hr as [-> ->]. eexists; split.
      + through_labels ctx pr.
        eapply yields_bind; [apply yields_ret|].
        intros w6 Hw6.
        eapply yields_bind; [apply yields_ret|].
        intros w7 Hw7. split; [reflexivity | simpl; congruence].
      + bool_cases. }
  destruct H as [v [H ->]]. exact H.
Qed.

End Yields.

(** *** Eligibility *)

Lemma check_unsatisfied_spec (checks : list CheckRun) (required : string) :
  check_unsatisfied checks required = true <->
  (forall c, In c checks -> check_name c <> required)
  \/ (exists c, In c checks /\ check_name c = required
                /\ conclusion c <> VStr "success").
Proof.
  unfold check_unsatisfied. rewrite orb_true_iff, negb_true_iff.
  rewrite <- not_true_iff_false, !existsb_exists. unfold named, succeeded.
  split; intros [H | H].
  - left. intros c Hin Heq. apply H. exists c. split; [assumption|].
    now apply String.eqb_eq.
  - right. destruct H as [c [Hin Hc]]. apply andb_true_iff in Hc as [Hn Hs].
    exists c. repeat split; [assumption | now apply String.eqb_eq |].
    intros Heq. apply loose_eq_string_spec in Heq. rewrite Heq in Hs. discriminate.
  - left. intros [c [Hin Hn]]. apply (H c Hin). now apply String.eqb_eq.
  - right. destruct H as [c [Hin [Hn Hs]]]. exists c. split; [assumption|].
    apply andb_true_iff. split; [now apply String.eqb_eq|].
    apply negb_true_iff, not_true_is_false. now rewrite loose_eq_string_spec.
Qed.

(** C4, as stated: without a skip, every required name would match exactly
    one successful check run.  Two successful runs named "ci" are both
    accepted for the required name "ci". *)
Lemma skipPullRequest_accepts_two_successful_runs :
  ~ (fst (skipPullRequest (Fixtures.ctx_ci Fixtures.ci_twice) Fixtures.pr0
            Fixtures.w0) = Ok false ->
     forall required, In required ["ci"] ->
       length (filter (fun c => named required c && succeeded c)
                 Fixtures.ci_twice) = 1).
Proof.
  intros H. specialize (H eq_refl "ci" (or_introl eq_refl)). discriminate H.
Qed.

(** C4, amended. When required check names are configured, the eligibility
    check skips the pull request unless every required name is, compared
    case-sensitively, the name of at least one check run of the fetched
    list and every run of that name has the success conclusion: a required
    name that is absent, or present with a conclusion other than success,
    causes a skip; when every required name is satisfied, the pull request
    is skipped only for one of the other skip conditions. *)
Theorem skipPullRequest_required_checks {Remote : Type} (ctx : Context Remote)
        (pr : PullRequest) (w : World Remote) (names : list string)
        (checks : list CheckRun) (reviews : list Review) (r' : Remote) :
  mergeRequireStatuses (config ctx) = Some names ->
  fetched ctx pr (remote w) checks reviews r' ->
  ((exists required,
       In required names
       /\ ((forall c, In c checks -> check_name c <> required)
           \/ (exists c, In c checks /\ check_name c = required
                         /\ conclusion c <> VStr "success"))) ->
   fst (skipPullRequest ctx pr w) = Ok true)
  /\ ((forall required,
          In required names ->
          (exists c, In c checks /\ check_name c = required)
          /\ (forall c, In c checks -> check_name c = required ->
                        conclusion c = VStr "success")) ->
      fst (skipPullRequest ctx pr w) = Ok (skip_otherwise (config ctx) pr reviews)).
Proof.
  intros Hnames Hf.
  destruct (skipPullRequest_result ctx pr w checks reviews r' Hf) as [Hv _].
  rewrite Hv. unfold skip_conditions. rewrite Hnames. split.
  - intros [required [Hin Hun]]. f_equal. apply orb_true_iff. right.
    apply existsb_exists. exists required. split; [assumption|].
    now apply check_unsatisfied_spec.
  - intros Hall. f_equal.
    replace (existsb (check_unsatisfied checks) names) with false;
      [apply orb_false_r|].
    symmetry. apply not_true_is_false. rewrite existsb_exists.
    intros [required [Hin Hun]]. apply check_unsatisfied_spec in Hun.
    destruct (Hall required Hin) as [[c [Hc Hn]] Hs].
    destruct Hun as [Habs | [c' [Hc' [Hn' Hs']]]].
    + now apply (Habs c Hc).
    + apply Hs'. now apply Hs.
Qed.

Lemma skipPullRequest_required_checks_witness :
  fst (skipPullRequest (Fixtures.ctx_ci [mkCheckRun "ci" (VStr "failure")])
         Fixtures.pr0 Fixtures.w0) = Ok true
  /\ fst (skipPullRequest (Fixtures.ctx_ci Fixtures.ci_twice) Fixtures.pr0
            Fixtures.w0) = Ok false.
Proof.
  split.
  - apply (proj1 (skipPullRequest_required_checks
                    (Fixtures.ctx_ci [mkCheckRun "ci" (VStr "failure")])
                    Fixtures.pr0 Fixtures.w0 ["ci"]
                    [mkCheckRun "ci" (VStr "failure")] [] tt eq_refl
                    (ex_intro _ tt
                       (conj (ex_intro _ (Some [mkCheckRun "ci" (VStr "failure")])
                                (conj eq_refl eq_refl))
                             (conj eq_refl eq_refl))))).
    exists "ci". split; [simpl; auto|]. right.
    exists (mkCheckRun "ci" (VStr "failure")).
    repeat split; [simpl; auto | discriminate].
  - apply (proj2 (skipPullRequest_required_checks
                    (Fixtures.ctx_ci Fixtures.ci_twice)
                    Fixtures.pr0 Fixtures.w0 ["ci"] Fixtures.ci_twice [] tt eq_refl
                    (ex_intro _ tt
                       (conj (ex_intro _ (Some Fixtures.ci_twice)
                                (conj eq_refl eq_refl))
                             (conj eq_refl eq_refl))))).
    intros required [<- | []]. split.
    + exists (mkCheckRun "ci" (VStr "success")). simpl. auto.
    + intros c [<- | [<- | []]] _; reflexivity.
Defined.

(** C7. Whenever a skip condition holds for the pull request, the merge
    operation fails with a thrown error if the fail-on-skip flag is set,
    and returns false without throwing if the flag is unset. *)
Theorem merge_skipped {Remote : Type} (ctx : Context Remote) (pr : PullRequest)
        (w : World Remote) (checks : list CheckRun) (reviews : list Review)
        (r' : Remote) :
  fetched ctx pr (remote w) checks reviews r' ->
  skip_conditions (config ctx) pr checks reviews = true ->
  fst (merge ctx pr w)
  = if failOnMergeSkip (config ctx)
    then Throw (mkError
                  (VStr "Pull request is skipped with FAIL_ON_MERGE_SKIP set to 'true'."))
    else Ok false.
Proof.
  intros Hf Hs.
  destruct (skipPullRequest_result ctx pr w checks reviews r' Hf) as [Hv _].
  rewrite Hs in Hv. unfold merge, bind.
  destruct (skipPullRequest ctx pr w) as [[skipped | e] w1]; simpl in Hv;
    [|discriminate].
  injection Hv as ->. now destruct (failOnMergeSkip (config ctx)).
Qed.

Lemma merge_skipped_witness :
  fst (merge (Fixtures.ctx_fail_on_skip true)
         (Fixtures.with_state Fixtures.pr0 "closed") Fixtures.w0)
  = Throw (mkError
             (VStr "Pull request is skipped with FAIL_ON_MERGE_SKIP set to 'true'."))
  /\ fst (merge (Fixtures.ctx_fail_on_skip false)
            (Fixtures.with_state Fixtures.pr0 "closed") Fixtures.w0)
     = Ok false.
Proof.
  split.
  - apply (merge_skipped (Fixtures.ctx_fail_on_skip true)
             (Fixtures.with_state Fixtures.pr0 "closed") Fixtures.w0 [] [] tt).
    + exists tt. simpl. auto.
    + reflexivity.
  - apply (merge_skipped (Fixtures.ctx_fail_on_skip false)
             (Fixtures.with_state Fixtures.pr0 "closed") Fixtures.w0 [] [] tt).
    + exists tt. simpl. auto.
    + reflexivity.
Defined.

(** *** The stages of [merge] *)

Section Stages.

Context {Remote : Type}.

(** The extraction step neither calls the remote service nor logs. *)
Lemma applyCommitMessageRegex_pure (p : option RegExp.Pattern) (pr : PullRequest)
      (w : World Remote) :
  snd (applyCommitMessageRegex p pr w) = w.
Proof.
  unfold applyCommitMessageRegex.
  destruct p as [p|]; [|reflexivity].
  destruct (String.eqb (RegExp.source p) ""); [reflexivity|].
  destruct (RegExp.exec _ _) as [m|]; [|reflexivity].
  now destruct (RegExp.get m 1).
Qed.

Lemma applyCommitMessageRegex_user (p : option RegExp.Pattern) (pr pr' : PullRequest)
      (w : World Remote) :
  fst (applyCommitMessageRegex p pr w) = Ok pr' -> user pr' = user pr.
Proof.
  unfold applyCommitMessageRegex.
  destruct p as [p|]; [|now intros [= <-]].
  destruct (String.eqb (RegExp.source p) ""); [now intros [= <-]|].
  destruct (RegExp.exec _ _) as [m|]; [|now intros [= <-]].
  destruct (RegExp.get m 1); simpl; try discriminate. now intros [= <-].
Qed.

(** [merge] once the pull request is not skipped and has become ready. *)
Lemma merge_ready (ctx : Context Remote) (pr : PullRequest)
      (w w1 w2 : World Remote) :
  skipPullRequest ctx pr w = (Ok false, w1) ->
  waitUntilReady (octokit ctx) pr (mergeRetries (config ctx))
    (mergeRetrySleep (config ctx)) (snd (announce pr w1)) = (Ok true, w2) ->
  merge ctx pr w
  = bind (applyCommitMessageRegex (mergeCommitMessageRegex (config ctx)) pr)
      (fun pr' => finishMerge ctx pr' (sha (head pr))) w2.
Proof.
  intros Hs Hr. unfold merge. unfold bind at 1. rewrite Hs.
  unfold bind at 1. simpl in Hr. simpl.
  unfold bind at 1. rewrite Hr. reflexivity.
Qed.

Lemma emits_bind_when {A B} (P : Event -> bool) (Q : A -> Prop)
      (m : @M Remote A) (k : A -> M B) :
  emits P m ->
  (forall w a, fst (m w) = Ok a -> Q a) ->
  (forall a, Q a -> emits P (k a)) ->
  emits P (bind m k).
Proof.
  intros Hm HQ Hk w. unfold bind. destruct (Hm w) as [evs [Ht Hp]].
  specialize (HQ w).
  destruct (m w) as [[a | e] w1]; simpl in Ht.
  - destruct (Hk a (HQ a eq_refl) w1) as [evs' [Ht' Hp']].
    exists (evs' ++ evs)%list.
    rewrite Ht', Ht, app_assoc, forallb_app, Hp, Hp'. now split.
  - exists evs. now split.
Qed.

Lemma bind_trace_after {A B} (m : @M Remote A) (k : A -> M B)
      (w : World Remote) (ev : Event) :
  (exists evs, trace (snd (m w)) = (evs ++ ev :: trace w)%list) ->
  (forall a, emits any_event (k a)) ->
  exists evs, trace (snd (bind m k w)) = (evs ++ ev :: trace w)%list.
Proof.
  intros [evs Ht] Hk. unfold bind.
  destruct (m w) as [[a | e] w1]; simpl in Ht.
  - destruct (Hk a w1) as [evs' [Ht' _]]. exists (evs' ++ evs)%list.
    now rewrite Ht', Ht, app_assoc.
  - now exists evs.
Qed.

Lemma checkMergeError_emits (P : Event -> bool) (e : option Error) :
  (forall l args, P (EvLog l args) = true) ->
  emits P (@checkMergeError Remote e).
Proof.
  intros HP. unfold checkMergeError, logger_info.
  repeat first [apply emits_emit; apply HP | emits_step].
Qed.

Lemma mergePullRequest_emits (o : Octokit Remote) (pr : PullRequest)
      (h mm : string) (cm : value) :
  emits any_event (mergePullRequest o pr h mm cm).
Proof.
  unfold mergePullRequest. emits_auto. now apply checkMergeError_emits.
Qed.

(** The first thing the merge attempt does is to call the remote
    service, with the composed commit title. *)
Lemma tryMerge_calls (o : Octokit Remote) (pr : PullRequest) (h mm : string)
      (n : nat) (ms : N) (cm : value) (w : World Remote) :
  exists evs,
    trace (snd (tryMerge o pr h mm n ms cm w))
    = (evs ++ EvCall (PullsMerge (login (repo_owner (repo (base pr))))
                        (repo_name (repo (base pr))) (number pr) cm "" h mm)
           :: trace w)%list.
Proof.
  unfold tryMerge, retry. apply bind_trace_after.
  - unfold mergePullRequest, try_catch, bind, call.
    destruct (pulls_merge o _ _ _ _ _ _ _ (remote w)) as [[u | e] rem]; simpl.
    + now exists [].
    + destruct (checkMergeError_emits any_event (Some e) (fun _ _ => eq_refl)
                  (mkWorld rem
                     (EvCall (PullsMerge (login (repo_owner (repo (base pr))))
                                (repo_name (repo (base pr))) (number pr) cm "" h mm)
                        :: trace w)))
        as [evs [Ht _]].
      exists evs. exact Ht.
  - intros [ | | ]; [apply emits_ret | apply emits_ret |].
    apply emits_retry_loop; [reflexivity | | ].
    + unfold getPullRequest, logger_debug, logger_trace.
      emits_auto; now apply checkMergeError_emits.
    + unfold logger_info. emits_auto.
Qed.

Lemma cleanUp_emits (ctx : Context Remote) (pr : PullRequest) :
  emits any_event (cleanUp ctx pr).
Proof.
  unfold cleanUp, removeLabels, deleteBranch, logger_info, logger_debug,
    logger_trace.
  emits_auto.
Qed.

Lemma finishMerge_calls (ctx : Context Remote) (pr : PullRequest) (h : string)
      (w : World Remote) :
  author_filtered (mergeFilterAuthor (config ctx)) pr = false ->
  exists evs,
    trace (snd (finishMerge ctx pr h w))
    = (evs ++ EvCall (PullsMerge (login (repo_owner (repo (base pr))))
                        (repo_name (repo (base pr))) (number pr)
                        (getCommitMessage (mergeCommitMessage (config ctx)) pr)
                        "" h (mergeMethod (config ctx)))
           :: trace w)%list.
Proof.
  intros Ha. unfold finishMerge. rewrite Ha.
  apply bind_trace_after; [apply tryMerge_calls|].
  intros merged. destruct merged; simpl; [|apply emits_ret].
  apply emits_bind; [now apply emits_emit | intros _].
  apply emits_bind; [apply cleanUp_emits | intros _; apply emits_ret].
Qed.

End Stages.

(** *** Extraction of the commit message *)

(** C5, as stated: the pattern would be matched without regard to letter
    case.  The pattern [Fixtures.notes_pattern] matches the body in upper
    case when case is ignored, with a first group, yet the body is left as
    it is. *)
Lemma applyCommitMessageRegex_is_case_sensitive :
  (exists m,
      RegExp.exec (RegExp.new Fixtures.notes_pattern "ism")
        (ToString (body Fixtures.pr_upper)) = Some m
      /\ RegExp.get m 1 = VStr " Fix")
  /\ fst (applyCommitMessageRegex (Some Fixtures.notes_pattern) Fixtures.pr_upper
            Fixtures.w0) = Ok Fixtures.pr_upper
  /\ Fixtures.pr_upper <> set_body Fixtures.pr_upper (VStr (trim " Fix")).
Proof.
  split; [|split].
  - eexists. split; vm_compute; reflexivity.
  - vm_compute. reflexivity.
  - discriminate.
Qed.

(** C5, amended. When a commit-message extraction pattern is configured,
    it is applied to the pull request body with case-sensitive, multiline
    and dot-all matching semantics, and on a match with a participating
    first capturing group the body of the pull request is replaced with
    the trimmed contents of that group before the commit message is
    composed: the merge call carries the title composed from the
    rewritten pull request. *)
Theorem merge_rewrites_body {Remote : Type} (ctx : Context Remote)
        (pr : PullRequest) (w w1 w2 : World Remote) (p : RegExp.Pattern)
        (m : RegExp.MatchResult) (g : string) :
  skipPullRequest ctx pr w = (Ok false, w1) ->
  waitUntilReady (octokit ctx) pr (mergeRetries (config ctx))
    (mergeRetrySleep (config ctx)) (snd (announce pr w1)) = (Ok true, w2) ->
  mergeCommitMessageRegex (config ctx) = Some p ->
  RegExp.source p <> "" ->
  RegExp.exec (RegExp.new p "sm") (ToString (body pr)) = Some m ->
  RegExp.get m 1 = VStr g ->
  let pr' := set_body pr (VStr (trim g)) in
  RegExp.flags (RegExp.new p "sm") = RegExp.mkFlags false false true true
  /\ merge ctx pr w = finishMerge ctx pr' (sha (head pr)) w2
  /\ (author_filtered (mergeFilterAuthor (config ctx)) pr' = false ->
      exists evs,
        trace (snd (merge ctx pr w))
        = (evs ++ EvCall (PullsMerge (login (repo_owner (repo (base pr))))
                            (repo_name (repo (base pr))) (number pr)
                            (getCommitMessage (mergeCommitMessage (config ctx)) pr')
                            "" (sha (head pr)) (mergeMethod (config ctx)))
               :: trace w2)%list).
Proof.
  intros Hs Hr Hp Hsrc Hm Hg pr'.
  assert (Hmerge : merge ctx pr w = finishMerge ctx pr' (sha (head pr)) w2).
  { rewrite (merge_ready ctx pr w w1 w2 Hs Hr). unfold bind, applyCommitMessageRegex.
    rewrite Hp. apply String.eqb_neq in Hsrc. rewrite Hsrc, Hm, Hg. reflexivity. }
  split; [reflexivity | split; [exact Hmerge|]].
  intros Ha. rewrite Hmerge. exact (finishMerge_calls ctx pr' (sha (head pr)) w2 Ha).
Qed.

Lemma merge_rewrites_body_witness :
  merge (Fixtures.ctx_regex Fixtures.notes_pattern "pull-request-description")
    Fixtures.pr_notes Fixtures.w0
  = finishMerge (Fixtures.ctx_regex Fixtures.notes_pattern "pull-request-description")
      (set_body Fixtures.pr_notes (VStr "Fix the bug")) "abc123"
      (Fixtures.ready_world
         (Fixtures.ctx_regex Fixtures.notes_pattern "pull-request-description")
         Fixtures.pr_notes).
Proof.
  refine (proj1 (proj2 (merge_rewrites_body
                          (Fixtures.ctx_regex Fixtures.notes_pattern
                             "pull-request-description")
                          Fixtures.pr_notes Fixtures.w0 _ _ Fixtures.notes_pattern
                          (RegExp.mkMatch 8 "notes: Fix the bug  "
                             [Some " Fix the bug  "])
                          " Fix the bug  " _ _ _ _ _ _))).
  - reflexivity.
  - reflexivity.
  - reflexivity.
  - discriminate.
  - vm_compute. reflexivity.
  - reflexivity.
Defined.

(** C6. For every configured extraction pattern that matches the pull
    request body without a captured first group, no merge call is made
    during the invocation and the operation never reports a merge; where
    the pattern is applied, that is once the pull request has passed the
    eligibility check and the readiness wait, the operation raises the
    configuration error. *)
Theorem merge_pattern_without_group {Remote : Type} (ctx : Context Remote)
        (pr : PullRequest) (w : World Remote) (p : RegExp.Pattern)
        (m : RegExp.MatchResult) :
  mergeCommitMessageRegex (config ctx) = Some p ->
  RegExp.source p <> "" ->
  RegExp.exec (RegExp.new p "sm") (ToString (body pr)) = Some m ->
  RegExp.get m 1 = VUndefined ->
  (exists evs,
      trace (snd (merge ctx pr w)) = (evs ++ trace w)%list
      /\ forallb not_merge_call evs = true)
  /\ fst (merge ctx pr w) <> Ok true
  /\ (forall w1 w2,
         skipPullRequest ctx pr w = (Ok false, w1) ->
         waitUntilReady (octokit ctx) pr (mergeRetries (config ctx))
           (mergeRetrySleep (config ctx)) (snd (announce pr w1)) = (Ok true, w2) ->
         merge ctx pr w
         = (Throw (mkError
                     (VStr ("MERGE_COMMIT_MESSAGE_REGEX must contain a capturing subgroup: '"
                            ++ RegExp.source p ++ "'"))),
            w2)).
Proof.
  intros Hp Hsrc Hm Hg.
  assert (Hthrow : forall w' : World Remote,
             applyCommitMessageRegex (mergeCommitMessageRegex (config ctx)) pr w'
             = (Throw (mkError
                         (VStr ("MERGE_COMMIT_MESSAGE_REGEX must contain a capturing subgroup: '"
                                ++ RegExp.source p ++ "'"))),
                w')).
  { intros w'. unfold applyCommitMessageRegex. rewrite Hp.
    apply String.eqb_neq in Hsrc. rewrite Hsrc, Hm, Hg. reflexivity. }
  split.
  - revert w. change (emits not_merge_call (merge ctx pr)). unfold merge.
    apply emits_bind; [apply skipPullRequest_quiet | intros skipped].
    destruct skipped.
    { destruct (failOnMergeSkip (config ctx)); [apply emits_throw | apply emits_ret]. }
    apply emits_bind; [now apply emits_emit | intros _].
    apply emits_bind; [apply waitUntilReady_quiet | intros ready].
    destruct ready; simpl; [|apply emits_ret].
    apply emits_bind_when with (Q := fun _ => False).
    + apply applyCommitMessageRegex_quiet.
    + intros w' a Ha. rewrite Hthrow in Ha. discriminate Ha.
    + intros a [].
  - split.
    { unfold merge, bind.
      destruct (skipPullRequest ctx pr w) as [[[|] | e] w1]; simpl;
        [destruct (failOnMergeSkip (config ctx)); discriminate | | discriminate].
      destruct (waitUntilReady _ _ _ _ _) as [[[|] | e] w2]; simpl;
        [rewrite Hthrow | |]; discriminate. }
    intros w1 w2 Hs Hr. rewrite (merge_ready ctx pr w w1 w2 Hs Hr).
    unfold bind. rewrite Hthrow. reflexivity.
Qed.

Lemma merge_pattern_without_group_witness :
  fst (merge (Fixtures.ctx_regex Fixtures.bare_pattern "automatic") Fixtures.pr0
         Fixtures.w0)
  = Throw (mkError
             (VStr "MERGE_COMMIT_MESSAGE_REGEX must contain a capturing subgroup: 'Details'")).
Proof.
  refine (f_equal fst
            (proj2 (proj2 (merge_pattern_without_group
                      (Fixtures.ctx_regex Fixtures.bare_pattern "automatic")
                      Fixtures.pr0 Fixtures.w0 Fixtures.bare_pattern
                      (RegExp.mkMatch 0 "Details" []) _ _ _ _))
               _ (Fixtures.ready_world
                    (Fixtures.ctx_regex Fixtures.bare_pattern "automatic")
                    Fixtures.pr0)
               _ _)).
  - reflexivity.
  - discriminate.
  - vm_compute. reflexivity.
  - reflexivity.
  - reflexivity.
  - reflexivity.
Defined.

(** *** Clean-up after a merge *)

(** C8. After a successful merge the operation returns true whatever the
    removal of labels and the deletion of the branch do: a failure of
    either is caught and logged, the deletion of the branch is attempted
    from the world the removal of labels left, failed or not, and the
    reported outcome is the same. *)
Theorem merge_cleanup_is_best_effort {Remote : Type} (ctx : Context Remote)
        (pr pr' : PullRequest) (w w1 w2 w3 : World Remote) :
  skipPullRequest ctx pr w = (Ok false, w1) ->
  waitUntilReady (octokit ctx) pr (mergeRetries (config ctx))
    (mergeRetrySleep (config ctx)) (snd (announce pr w1)) = (Ok true, w2) ->
  fst (applyCommitMessageRegex (mergeCommitMessageRegex (config ctx)) pr w2) = Ok pr' ->
  author_filtered (mergeFilterAuthor (config ctx)) pr' = false ->
  tryMerge (octokit ctx) pr' (sha (head pr)) (mergeMethod (config ctx))
    (mergeRetries (config ctx)) (mergeRetrySleep (config ctx))
    (getCommitMessage (mergeCommitMessage (config ctx)) pr') w2 = (Ok true, w3) ->
  let labelsDone :=
    removeLabels (octokit ctx) pr' (mergeRemoveLabels (config ctx))
      (snd (logger_info [LS "PR successfully merged!"] w3)) in
  let w4 :=
    match fst labelsDone with
    | Ok _ => snd labelsDone
    | Throw e =>
        snd (logger_info [LS "Failed to remove labels:"; LV (message e)]
               (snd labelsDone))
    end in
  let branchDone := deleteBranch (octokit ctx) pr' w4 in
  let w5 :=
    match fst branchDone with
    | Ok _ => snd branchDone
    | Throw e =>
        snd (logger_info [LS "Failed to delete branch:"; LV (message e)]
               (snd branchDone))
    end in
  merge ctx pr w = (Ok true, if mergeDeleteBranch (config ctx) then w5 else w4).
Proof.
  intros Hs Hr Hx Ha Hm labelsDone w4 branchDone w5.
  rewrite (merge_ready ctx pr w w1 w2 Hs Hr). unfold bind at 1.
  pose proof (applyCommitMessageRegex_pure
                (mergeCommitMessageRegex (config ctx)) pr w2) as Hpure.
  destruct (applyCommitMessageRegex (mergeCommitMessageRegex (config ctx)) pr w2)
    as [rx wx]. simpl in Hx, Hpure. subst rx wx.
  unfold finishMerge. rewrite Ha. unfold bind at 1. rewrite Hm. simpl.
  unfold bind at 1. simpl. unfold cleanUp, bind at 1.
  unfold bind at 1, try_catch at 1.
  subst w5 branchDone w4 labelsDone. simpl.
  destruct (removeLabels (octokit ctx) pr' (mergeRemoveLabels (config ctx)) _)
    as [[u | e] wl]; simpl.
  - destruct (mergeDeleteBranch (config ctx)); [|reflexivity].
    unfold try_catch.
    now destruct (deleteBranch (octokit ctx) pr' wl) as [[u' | e'] wb].
  - destruct (mergeDeleteBranch (config ctx)); [|reflexivity].
    unfold try_catch.
    now destruct (deleteBranch (octokit ctx) pr' _) as [[u' | e'] wb].
Qed.

Lemma merge_cleanup_is_best_effort_witness :
  fst (merge Fixtures.ctx_failing_cleanup Fixtures.pr0 Fixtures.w0) = Ok true.
Proof.
  refine (f_equal fst
            (merge_cleanup_is_best_effort Fixtures.ctx_failing_cleanup
               Fixtures.pr0 Fixtures.pr0 Fixtures.w0 _
               (Fixtures.ready_world Fixtures.ctx_failing_cleanup Fixtures.pr0)
               (snd (tryMerge (octokit Fixtures.ctx_failing_cleanup) Fixtures.pr0
                       "abc123" "merge" 3 1000 VUndefined
                       (Fixtures.ready_world Fixtures.ctx_failing_cleanup
                          Fixtures.pr0)))
               _ _ _ _ _)).
  - reflexivity.
  - reflexivity.
  - reflexivity.
  - reflexivity.
  - reflexivity.
Defined.

(** *** The author filter *)

(** C10. If an author filter is configured and the login of the pull
    request's author differs from it, the merge operation returns false
    without any merge call, after the readiness wait and the extraction
    step have run: the world it ends in is the one the readiness wait
    left, and an error of the extraction step is thrown in spite of the
    mismatch.  The path does not depend on the fail-on-skip flag, and the
    eligibility check does not look at the author. *)
Theorem merge_author_mismatch {Remote : Type} (ctx : Context Remote)
        (pr : PullRequest) (w w1 w2 : World Remote) (author : string) :
  skipPullRequest ctx pr w = (Ok false, w1) ->
  waitUntilReady (octokit ctx) pr (mergeRetries (config ctx))
    (mergeRetrySleep (config ctx)) (snd (announce pr w1)) = (Ok true, w2) ->
  mergeFilterAuthor (config ctx) = Some author ->
  author <> "" ->
  login (user pr) <> author ->
  (forall pr',
      fst (applyCommitMessageRegex (mergeCommitMessageRegex (config ctx)) pr w2)
      = Ok pr' ->
      merge ctx pr w = (Ok false, w2))
  /\ (forall e,
         fst (applyCommitMessageRegex (mergeCommitMessageRegex (config ctx)) pr w2)
         = Throw e ->
         merge ctx pr w = (Throw e, w2))
  /\ (exists evs,
         trace w2 = (evs ++ trace w)%list /\ forallb not_merge_call evs = true)
  /\ skipPullRequest ctx (set_user pr (mkOwner author)) w = skipPullRequest ctx pr w.
Proof.
  intros Hs Hr Hf Hne Hlogin.
  pose proof (applyCommitMessageRegex_pure
                (mergeCommitMessageRegex (config ctx)) pr w2) as Hpure.
  split; [|split; [|split; [|reflexivity]]].
  - intros pr' Hx. rewrite (merge_ready ctx pr w w1 w2 Hs Hr). unfold bind.
    pose proof (applyCommitMessageRegex_user _ _ _ _ Hx) as Hu.
    destruct (applyCommitMessageRegex (mergeCommitMessageRegex (config ctx)) pr w2)
      as [rx wx]. simpl in Hx, Hpure. subst rx wx.
    unfold finishMerge, author_filtered. rewrite Hf, Hu.
    apply String.eqb_neq in Hne, Hlogin. now rewrite Hne, Hlogin.
  - intros e Hx. rewrite (merge_ready ctx pr w w1 w2 Hs Hr). unfold bind.
    destruct (applyCommitMessageRegex (mergeCommitMessageRegex (config ctx)) pr w2)
      as [rx wx]. simpl in Hx, Hpure. now subst rx wx.
  - destruct (skipPullRequest_quiet ctx pr w) as [evs1 [Ht1 Hq1]].
    rewrite Hs in Ht1. simpl in Ht1.
    destruct (waitUntilReady_quiet (octokit ctx) pr (mergeRetries (config ctx))
                (mergeRetrySleep (config ctx)) (snd (announce pr w1)))
      as [evs2 [Ht2 Hq2]].
    rewrite Hr in Ht2. simpl in Ht2.
    exists (evs2 ++ EvLog Info
                      [LS ("Merging PR #" ++ Number_toString (number pr) ++ " "
                           ++ title pr)] :: evs1)%list.
    split.
    + rewrite Ht2, Ht1, <- app_assoc. reflexivity.
    + rewrite forallb_app. simpl. now rewrite Hq1, Hq2.
Qed.

Lemma merge_author_mismatch_witness :
  merge (Fixtures.ctx_author "bob" true) Fixtures.pr0 Fixtures.w0
  = (Ok false, Fixtures.ready_world (Fixtures.ctx_author "bob" true) Fixtures.pr0).
Proof.
  refine (proj1 (merge_author_mismatch (Fixtures.ctx_author "bob" true)
                   Fixtures.pr0 Fixtures.w0 _
                   (Fixtures.ready_world (Fixtures.ctx_author "bob" true)
                      Fixtures.pr0)
                   "bob" _ _ _ _ _) Fixtures.pr0 _).
  - reflexivity.
  - reflexivity.
  - reflexivity.
  - discriminate.
  - discriminate.
  - reflexivity.
Defined.

(** ** Further properties of the workflow *)

(** *** Deletion of the merged branch *)

Lemma deleteBranch_fork {Remote : Type} (o : Octokit Remote)
      (pr : PullRequest) (w : World Remote) :
  repo_full_name (repo (head pr)) <> repo_full_name (repo (base pr)) ->
  deleteBranch o pr w
  = (Ok tt,
     mkWorld (remote w)
       (EvLog Info [LS "Branch is from external repository, skipping delete"]
          :: trace w)).
Proof.
  intros H. unfold deleteBranch. apply String.eqb_neq in H. now rewrite H.
Qed.

(** X2. When the branch cannot be looked up, or is protected,
    [deleteBranch] makes no call after the lookup: a failed lookup is
    thrown on, a protected branch is reported and kept. *)
Theorem deleteBranch_keeps_protected {Remote : Type} (o : Octokit Remote)
        (pr : PullRequest) (w : World Remote) :
  repo_full_name (repo (head pr)) = repo_full_name (repo (base pr)) ->
  let lookup :=
    repos_getBranch o (login (repo_owner (repo (head pr))))
      (repo_name (repo (head pr))) (ref (head pr)) (remote w) in
  (forall e, fst lookup = Throw e ->
             fst (deleteBranch o pr w) = Throw e)
  /\ (forall b, fst lookup = Ok b -> protected b = true ->
                fst (deleteBranch o pr w) = Ok tt)
  /\ ((forall b, fst lookup = Ok b -> protected b = true) ->
      remote (snd (deleteBranch o pr w)) = snd lookup
      /\ calls_of (trace (snd (deleteBranch o pr w)))
         = ReposGetBranch (login (repo_owner (repo (head pr))))
             (repo_name (repo (head pr))) (ref (head pr))
           :: calls_of (trace w)).
Proof.
  intros Hsame lookup. subst lookup. unfold deleteBranch.
  apply String.eqb_eq in Hsame. rewrite Hsame. simpl.
  unfold bind, call, logger_trace, logger_info, logger_debug, emit.
  destruct (repos_getBranch o _ _ _ (remote w)) as [[b | e] r]; simpl.
  - split; [discriminate|]. split.
    + intros b' [= <-] Hp. now rewrite Hp.
    + intros Hp. now rewrite (Hp b eq_refl).
  - split; [now intros e' [= <-]|]. split; [discriminate|]. now intros _.
Qed.

Lemma deleteBranch_keeps_protected_witness :
  fst (deleteBranch (Fixtures.with_branch (mkBranch "main" true)) Fixtures.pr0
         Fixtures.w0) = Ok tt
  /\ calls_of (trace (snd (deleteBranch (Fixtures.with_branch (mkBranch "main" true))
                             Fixtures.pr0 Fixtures.w0)))
     = [ReposGetBranch "octo" "app" "feature"].
Proof.
  split.
  - apply (proj1 (proj2 (deleteBranch_keeps_protected
                           (Fixtures.with_branch (mkBranch "main" true))
                           Fixtures.pr0 Fixtures.w0 eq_refl))
             (mkBranch "main" true)); reflexivity.
  - apply (proj2 (proj2 (deleteBranch_keeps_protected
                           (Fixtures.with_branch (mkBranch "main" true))
                           Fixtures.pr0 Fixtures.w0 eq_refl))).
    now intros b [= <-].
Defined.

(** X3. For a branch of the base repository that is not protected,
    [deleteBranch] looks the branch up and then deletes the reference
    "heads/" followed by the name the lookup returned, in the head
    repository; its result is the result of that deletion. *)
Theorem deleteBranch_deletes_looked_up_name {Remote : Type} (o : Octokit Remote)
        (pr : PullRequest) (w : World Remote) (b : Branch) (r : Remote) :
  repo_full_name (repo (head pr)) = repo_full_name (repo (base pr)) ->
  repos_getBranch o (login (repo_owner (repo (head pr))))
    (repo_name (repo (head pr))) (ref (head pr)) (remote w) = (Ok b, r) ->
  protected b = false ->
  let deletion :=
    git_deleteRef o (login (repo_owner (repo (head pr))))
      (repo_name (repo (head pr))) ("heads/" ++ branch_name b) r in
  fst (deleteBranch o pr w) = fst deletion
  /\ remote (snd (deleteBranch o pr w)) = snd deletion
  /\ calls_made (trace (snd (deleteBranch o pr w)))
     = (calls_made (trace w)
          ++ [ReposGetBranch (login (repo_owner (repo (head pr))))
                (repo_name (repo (head pr))) (ref (head pr));
              GitDeleteRef (login (repo_owner (repo (head pr))))
                (repo_name (repo (head pr))) ("heads/" ++ branch_name b)])%list.
Proof.
  intros Hsame Hlookup Hp deletion. subst deletion. unfold deleteBranch.
  apply String.eqb_eq in Hsame. rewrite Hsame. simpl.
  unfold bind, call, logger_trace, logger_info, logger_debug, emit.
  rewrite Hlookup. simpl. rewrite Hp. simpl.
  destruct (git_deleteRef o _ _ _ r) as [[u | e] r']; simpl;
    unfold calls_made; simpl; rewrite <- !app_assoc; simpl;
    (split; [try destruct u; reflexivity | split; reflexivity]).
Qed.

Lemma deleteBranch_deletes_looked_up_name_witness :
  calls_made (trace (snd (deleteBranch
                            (Fixtures.with_branch (mkBranch "renamed" false))
                            Fixtures.pr0 Fixtures.w0)))
  = [ReposGetBranch "octo" "app" "feature";
     GitDeleteRef "octo" "app" "heads/renamed"].
Proof.
  apply (proj2 (proj2 (deleteBranch_deletes_looked_up_name
                         (Fixtures.with_branch (mkBranch "renamed" false))
                         Fixtures.pr0 Fixtures.w0 (mkBranch "renamed" false) tt
                         eq_refl eq_refl eq_refl))).
Defined.

(** *** Removal of labels *)





Example removeLabels_stops_at_first_failure :
  fst (removeLabels Fixtures.refusing_labels Fixtures.pr_labelled
         ["ready"; "automerge"] Fixtures.w0)
  = Throw (mkError (VStr "Label does not exist"))
  /\ calls_made (trace (snd (removeLabels Fixtures.refusing_labels
                               Fixtures.pr_labelled ["ready"; "automerge"]
                               Fixtures.w0)))
     = [IssuesRemoveLabel "octo" "app" 42 "automerge"].
Proof. split; reflexivity. Qed.

Example removeLabels_in_label_order :
  calls_made (trace (snd (removeLabels (Fixtures.obliging None [])
                            Fixtures.pr_labelled ["ready"; "automerge"]
                            Fixtures.w0)))
  = [IssuesRemoveLabel "octo" "app" 42 "automerge";
     IssuesRemoveLabel "octo" "app" 42 "ready"].
Proof. reflexivity. Qed.

(** *** The eligibility check *)

Lemma skipPullRequest_emits_reads {Remote : Type} (ctx : Context Remote)
      (pr : PullRequest) :
  emits (is_eligibility_read pr) (skipPullRequest ctx pr).
Proof.
  unfold skipPullRequest, scanChecks, skip_when, fetchChecks, fetchReviews.
  repeat first
    [ emits_step
    | apply emits_call; simpl; rewrite !String.eqb_refl, ?N.eqb_refl; reflexivity ].
Qed.

(** X5. Whatever the configuration and the answers of the remote service,
    the only calls of [skipPullRequest] are the request for the check runs
    of the head commit and the request for the reviews of the pull
    request, both addressed to the base repository. *)
Theorem skipPullRequest_only_reads {Remote : Type} (ctx : Context Remote)
        (pr : PullRequest) (w : World Remote) :
  exists evs,
    trace (snd (skipPullRequest ctx pr w)) = (evs ++ trace w)%list
    /\ forallb (is_eligibility_read pr) evs = true.
Proof. exact (skipPullRequest_emits_reads ctx pr w). Qed.

(** X6. When neither required checks nor a required approval are
    configured, [skipPullRequest] makes no call at all: it only logs, and
    leaves the remote service as it was. *)
Theorem skipPullRequest_without_policy {Remote : Type} (ctx : Context Remote)
        (pr : PullRequest) (w : World Remote) :
  mergeRequireStatuses (config ctx) = None ->
  mergeRequireApproval (config ctx) = false ->
  remote (snd (skipPullRequest ctx pr w)) = remote w
  /\ exists evs,
      trace (snd (skipPullRequest ctx pr w)) = (evs ++ trace w)%list
      /\ forallb is_log evs = true.
Proof.
  intros Hs Ha. split.
  - apply (skipPullRequest_result ctx pr w [] [] (remote w)).
    exists (remote w). rewrite Hs, Ha. auto.
  - revert w. change (emits is_log (skipPullRequest ctx pr)).
    unfold skipPullRequest, skip_when. rewrite Hs, Ha. emits_auto.
Qed.

Lemma skipPullRequest_without_policy_witness :
  calls_of (trace (snd (skipPullRequest (Fixtures.ctx_fail_on_skip false)
                          (Fixtures.with_state Fixtures.pr0 "closed")
                          Fixtures.w0))) = [].
Proof.
  destruct (proj2 (skipPullRequest_without_policy (Fixtures.ctx_fail_on_skip false)
                     (Fixtures.with_state Fixtures.pr0 "closed") Fixtures.w0
                     eq_refl eq_refl)) as [evs [Ht Hl]].
  rewrite Ht. clear Ht. simpl. rewrite app_nil_r.
  induction evs as [|[c | l a | ms] evs IH]; simpl in *;
    [reflexivity | discriminate | now apply IH | discriminate].
Defined.

Lemma countApprovals_from (reviews : list Review) (n : nat) :
  fold_left
    (fun numApprovals approval =>
       if String.eqb (review_state approval) "APPROVED"
       then numApprovals + 1 else numApprovals)
    reviews n
  = n + countApprovals reviews.
Proof.
  unfold countApprovals. revert n.
  induction reviews as [|r reviews IH]; intros n; simpl; [lia|].
  rewrite IH, (IH (if String.eqb (review_state r) "APPROVED" then 1 else 0)).
  destruct (String.eqb (review_state r) "APPROVED"); lia.
Qed.

Lemma countApprovals_zero (reviews : list Review) :
  Nat.eqb (countApprovals reviews) 0 = true
  <-> forall r, In r reviews -> review_state r <> "APPROVED".
Proof.
  rewrite Nat.eqb_eq. induction reviews as [|r reviews IH].
  - split; [intros _ r [] | reflexivity].
  - unfold countApprovals. simpl. rewrite countApprovals_from.
    destruct (String.eqb (review_state r) "APPROVED") eqn:He.
    + apply String.eqb_eq in He. split; [lia|].
      intros H. exfalso. now apply (H r (or_introl eq_refl)).
    + apply String.eqb_neq in He. simpl. rewrite IH. split.
      * intros H r' [<- | Hin]; [assumption | now apply H].
      * intros H r' Hin. apply H. now right.
Qed.

Lemma skip_conditions_cause (cfg : Config) (pr : PullRequest)
      (checks : list CheckRun) (reviews : list Review) :
  skip_conditions cfg pr checks reviews = true <-> skip_cause cfg pr checks reviews.
Proof.
  unfold skip_conditions, skip_otherwise, skip_cause, is_fork.
  rewrite !orb_true_iff, !andb_true_iff, !negb_true_iff, !existsb_exists.
  rewrite String.eqb_neq, String.eqb_neq, countApprovals_zero.
  split.
  - intros [[[[[[H | H] | H] | H] | H] | H] | H]; auto.
    + destruct H as [l [Hin Hb]]. apply includes_string_spec in Hb.
      right; right; right; left. now exists l.
    + destruct H as [r [Hin Hn]]. apply negb_true_iff in Hn.
      right; right; right; right; left. exists r. split; [assumption|].
      intros Hc. apply includes_string_spec in Hc. congruence.
    + right; right; right; right; right; right. assumption.
    + destruct (mergeRequireStatuses cfg) as [names|]; [|discriminate].
      apply existsb_exists in H as [r [Hin Hu]].
      apply check_unsatisfied_spec in Hu.
      right; right; right; right; right; left. now exists names, r.
  - intros [H | [H | [H | [H | [H | [H | H]]]]]]; auto 10.
    + destruct H as [l [Hin Hb]]. left; left; left; right. exists l.
      split; [assumption | now apply includes_string_spec].
    + destruct H as [r [Hin Hn]]. left; left; right. exists r.
      split; [assumption|]. apply negb_true_iff, not_true_is_false.
      now rewrite includes_string_spec.
    + destruct H as [names [r [Hs [Hin Hu]]]]. right. rewrite Hs.
      apply existsb_exists. exists r. split; [assumption|].
      now apply check_unsatisfied_spec.
Qed.

(** X7. Provided its fetches succeed, [skipPullRequest] returns true
    exactly when one of these holds: the state is not open; the pull
    request is merged; it comes from another repository and forks are not
    merged; it carries a blocking label; it lacks a required label; a
    required check has no run or a run that did not succeed; an approval
    is required and no fetched review is in the state APPROVED.  Otherwise
    it returns false. *)
Theorem skipPullRequest_skips_iff {Remote : Type} (ctx : Context Remote)
        (pr : PullRequest) (w : World Remote) (checks : list CheckRun)
        (reviews : list Review) (r' : Remote) :
  fetched ctx pr (remote w) checks reviews r' ->
  (skip_cause (config ctx) pr checks reviews ->
   fst (skipPullRequest ctx pr w) = Ok true)
  /\ (~ skip_cause (config ctx) pr checks reviews ->
      fst (skipPullRequest ctx pr w) = Ok false).
Proof.
  intros Hf.
  destruct (skipPullRequest_result ctx pr w checks reviews r' Hf) as [Hv _].
  rewrite Hv. split; intros H.
  - apply skip_conditions_cause in H. now rewrite H.
  - rewrite <- skip_conditions_cause in H. apply not_true_is_false in H.
    now rewrite H.
Qed.

Lemma skipPullRequest_skips_iff_witness :
  fst (skipPullRequest (Fixtures.ctx_fail_on_skip false)
         (Fixtures.with_state Fixtures.pr0 "closed") Fixtures.w0) = Ok true.
Proof.
  apply (proj1 (skipPullRequest_skips_iff (Fixtures.ctx_fail_on_skip false)
                  (Fixtures.with_state Fixtures.pr0 "closed") Fixtures.w0 [] [] tt
                  (ex_intro _ tt (conj (conj eq_refl eq_refl)
                                       (conj eq_refl eq_refl))))).
  left. discriminate.
Defined.

(** X8. When required check names are configured, at least one, and the
    answer of the remote service holds no check run (its list of check
    runs is missing or empty), the pull request is skipped. *)
Theorem skipPullRequest_without_check_runs {Remote : Type} (ctx : Context Remote)
        (pr : PullRequest) (w : World Remote) (names : list string)
        (reviews : list Review) (r' : Remote) :
  mergeRequireStatuses (config ctx) = Some names ->
  names <> [] ->
  fetched ctx pr (remote w) [] reviews r' ->
  fst (skipPullRequest ctx pr w) = Ok true.
Proof.
  intros Hs Hne Hf.
  apply (proj1 (skipPullRequest_skips_iff ctx pr w [] reviews r' Hf)).
  destruct names as [|r names]; [contradiction|].
  right; right; right; right; right; left.
  exists (r :: names), r. split; [assumption|]. split; [now left|].
  left. intros c [].
Qed.

Lemma skipPullRequest_without_check_runs_witness :
  fst (skipPullRequest
         (mkContext (Fixtures.obliging None [])
            (Fixtures.with_statuses Fixtures.cfg0 (Some ["ci"])))
         Fixtures.pr0 Fixtures.w0) = Ok true.
Proof.
  apply (skipPullRequest_without_check_runs
           (mkContext (Fixtures.obliging None [])
              (Fixtures.with_statuses Fixtures.cfg0 (Some ["ci"])))
           Fixtures.pr0 Fixtures.w0 ["ci"] [] tt eq_refl).
  - discriminate.
  - exists tt. split; [exists None; split; reflexivity | split; reflexivity].
Defined.

(** *** Failures of the fetches *)

Lemma throws_now {Remote A B : Type} (m : @M Remote A) (k : A -> M B)
      (w : World Remote) (e : Error) :
  fst (m w) = Throw e -> fst (bind m k w) = Throw e.
Proof.
  unfold bind. destruct (m w) as [[a | e'] w1]; simpl; [discriminate|].
  now intros [= ->].
Qed.

Lemma throws_later {Remote A B : Type} (m : @M Remote A) (k : A -> M B)
      (w : World Remote) (a : A) (r1 : Remote) (e : Error) :
  yields m w a r1 ->
  (forall w1, remote w1 = r1 -> fst (k a w1) = Throw e) ->
  fst (bind m k w) = Throw e.
Proof.
  unfold yields, bind. intros [Hv Hr] Hk.
  destruct (m w) as [[a' | e'] w1]; simpl in *; [|discriminate].
  injection Hv as ->. now apply Hk.
Qed.

Lemma fetchChecks_throws {Remote : Type} (ctx : Context Remote) (pr : PullRequest)
      (w : World Remote) (e : Error) :
  fst (checks_answer ctx pr (remote w)) = Throw e ->
  fst (fetchChecks ctx pr w) = Throw e.
Proof.
  unfold checks_answer, fetchChecks, bind, logger_debug, emit, call. simpl.
  destruct (request_check_runs _ _ _ _ (remote w)) as [[a | e'] r]; simpl;
    [discriminate | now intros [= ->]].
Qed.

Lemma fetchReviews_throws {Remote : Type} (ctx : Context Remote) (pr : PullRequest)
      (w : World Remote) (e : Error) :
  fst (reviews_answer ctx pr (remote w)) = Throw e ->
  fst (fetchReviews ctx pr w) = Throw e.
Proof.
  unfold reviews_answer, fetchReviews, bind, logger_debug, emit, call. simpl.
  destruct (request_reviews _ _ _ _ (remote w)) as [[a | e'] r]; simpl;
    [discriminate | now intros [= ->]].
Qed.

(** The steps of the eligibility check before its first fetch. *)
Ltac before_fetches ctx pr :=
  eapply throws_later; [apply yields_skip_when|]; intros ?w ?Hw;
  eapply throws_later; [apply yields_skip_when|]; intros ?w ?Hw;
  eapply throws_later; [apply yields_skip_when|]; intros ?w ?Hw;
  eapply throws_later;
  [apply (yields_foldM_skip_when
            (fun l => includes_string (blocking (mergeLabels (config ctx)))
                        (label_name l))
            (fun l => [LS "Skipping PR merge, blocking label present:";
                       LS (label_name l)]))|];
  intros ?w ?Hw;
  eapply throws_later;
  [apply (yields_foldM_skip_when
            (fun r => negb (includes_string (map label_name (labels pr)) r))
            (fun r => [LS "Skipping PR merge, required label missing:"; LS r]))|];
  intros ?w ?Hw.

Lemma merge_throws_with_skipPullRequest {Remote : Type} (ctx : Context Remote)
      (pr : PullRequest) (w : World Remote) (e : Error) :
  fst (skipPullRequest ctx pr w) = Throw e ->
  merge ctx pr w = (Throw e, snd (skipPullRequest ctx pr w)).
Proof.
  intros H. unfold merge, bind.
  destruct (skipPullRequest ctx pr w) as [[b | e'] w1]; simpl in *;
    [discriminate | now injection H as ->].
Qed.

(** X9. When required checks are configured and the request for the check
    runs fails, [merge] throws the error of the request, whatever the pull
    request and the fail-on-skip flag are, and does nothing after the
    failed request. *)
Theorem merge_throws_when_checks_unavailable {Remote : Type}
        (ctx : Context Remote) (pr : PullRequest) (w : World Remote)
        (names : list string) (e : Error) :
  mergeRequireStatuses (config ctx) = Some names ->
  fst (checks_answer ctx pr (remote w)) = Throw e ->
  fst (merge ctx pr w) = Throw e
  /\ snd (merge ctx pr w) = snd (skipPullRequest ctx pr w).
Proof.
  intros Hs He.
  assert (H : fst (skipPullRequest ctx pr w) = Throw e).
  { unfold skipPullRequest. rewrite Hs. before_fetches ctx pr.
    apply throws_now. apply throws_now. apply fetchChecks_throws.
    replace (remote w4) with (remote w) by congruence. exact He. }
  now rewrite (merge_throws_with_skipPullRequest ctx pr w e H).
Qed.

Lemma merge_throws_when_checks_unavailable_witness :
  fst (merge Fixtures.ctx_checks_down (Fixtures.with_state Fixtures.pr0 "closed")
         Fixtures.w0)
  = Throw (mkError (VStr "Service unavailable")).
Proof.
  apply (proj1 (merge_throws_when_checks_unavailable Fixtures.ctx_checks_down
                  (Fixtures.with_state Fixtures.pr0 "closed") Fixtures.w0 ["ci"]
                  (mkError (VStr "Service unavailable")) eq_refl eq_refl)).
Defined.

(** X10. When an approval is required and the request for the reviews
    fails, after the check runs were fetched if they are required, [merge]
    throws the error of the request, whatever the pull request and the
    fail-on-skip flag are. *)
Theorem merge_throws_when_reviews_unavailable {Remote : Type}
        (ctx : Context Remote) (pr : PullRequest) (w : World Remote)
        (r1 : Remote) (e : Error) :
  mergeRequireApproval (config ctx) = true ->
  match mergeRequireStatuses (config ctx) with
  | Some _ => exists response, checks_answer ctx pr (remote w) = (Ok response, r1)
  | None => r1 = remote w
  end ->
  fst (reviews_answer ctx pr r1) = Throw e ->
  fst (merge ctx pr w) = Throw e
  /\ snd (merge ctx pr w) = snd (skipPullRequest ctx pr w).
Proof.
  intros Ha Hc He.
  assert (H : fst (skipPullRequest ctx pr w) = Throw e).
  { unfold skipPullRequest. rewrite Ha.
    destruct (mergeRequireStatuses (config ctx)) as [names|].
    - destruct Hc as [response Hc]. before_fetches ctx pr.
      eapply throws_later.
      { eapply yields_bind;
          [apply yields_fetchChecks;
           replace (remote w4) with (remote w) by congruence; exact Hc|].
        intros w5 Hw5.
        eapply yields_remote; [apply yields_required_checks | exact Hw5]. }
      intros w6 Hw6. apply throws_now. apply throws_now.
      apply fetchReviews_throws. now rewrite Hw6.
    - subst r1. before_fetches ctx pr.
      eapply throws_later; [apply yields_ret|]. intros w6 Hw6.
      apply throws_now. apply throws_now. apply fetchReviews_throws.
      replace (remote w6) with (remote w) by congruence. exact He. }
  now rewrite (merge_throws_with_skipPullRequest ctx pr w e H).
Qed.

Lemma merge_throws_when_reviews_unavailable_witness :
  fst (merge Fixtures.ctx_reviews_down Fixtures.pr0 Fixtures.w0)
  = Throw (mkError (VStr "Service unavailable")).
Proof.
  apply (proj1 (merge_throws_when_reviews_unavailable Fixtures.ctx_reviews_down
                  Fixtures.pr0 Fixtures.w0 tt
                  (mkError (VStr "Service unavailable")) eq_refl eq_refl eq_refl)).
Defined.

(** *** The merge call *)

(** X11. [mergePullRequest] never throws and makes exactly one call, the
    merge of the pull request in its base repository with the given commit
    title, an empty commit message, the given head commit and merge
    method.  Its outcome is success exactly when the call succeeds, and
    failure exactly when the call fails with a message that contains one
    of the two phrases about required reviews. *)
Theorem mergePullRequest_outcome {Remote : Type} (o : Octokit Remote)
        (pr : PullRequest) (h mm : string) (cm : value) (w : World Remote) :
  let answer :=
    pulls_merge o (login (repo_owner (repo (base pr))))
      (repo_name (repo (base pr))) (number pr) cm "" h mm (remote w) in
  exists outcome logs,
    mergePullRequest o pr h mm cm w
    = (Ok outcome,
       mkWorld (snd answer)
         (logs ++ EvCall (PullsMerge (login (repo_owner (repo (base pr))))
                            (repo_name (repo (base pr))) (number pr) cm "" h mm)
               :: trace w)%list)
    /\ forallb is_log logs = true
    /\ (outcome = Success <-> exists u, fst answer = Ok u)
    /\ (outcome = Failure <->
        exists e, fst answer = Throw e
                  /\ (Contains (error_text (Some e)) review_required
                      \/ Contains (error_text (Some e)) reviews_required)).
Proof.
  intros answer. subst answer.
  unfold mergePullRequest, try_catch, bind, call.
  destruct (pulls_merge o _ _ _ _ _ _ _ (remote w)) as [[u | e] r]; simpl.
  - exists Success, []. split; [reflexivity|]. split; [reflexivity|].
    split; [split; [now exists u | reflexivity]|].
    split; [discriminate | now intros [e [He _]]].
  - unfold checkMergeError, bind, logger_info, emit.
    destruct (String_includes (error_text (Some e)) review_required
              || String_includes (error_text (Some e)) reviews_required) eqn:Hinc;
      simpl.
    + exists Failure, [EvLog Info [LS "Cannot merge PR:"; LS (error_text (Some e))]].
      split; [reflexivity|]. split; [reflexivity|].
      split; [split; [discriminate | now intros [u Hu]]|].
      split; [|reflexivity]. intros _. exists e. split; [reflexivity|].
      apply orb_true_iff in Hinc. now rewrite !String_includes_spec in Hinc.
    + exists Retry, [EvLog Info [LS "Failed to merge PR:"; LS (error_text (Some e))]].
      split; [reflexivity|]. split; [reflexivity|].
      split; [split; [discriminate | now intros [u Hu]]|].
      split; [discriminate|]. intros [e' [[= <-] Hc]].
      apply orb_false_iff in Hinc as [H1 H2].
      destruct Hc as [Hc | Hc]; apply String_includes_spec in Hc;
        [change (String_includes (error_text (Some e)) review_required = true) in Hc
        |change (String_includes (error_text (Some e)) reviews_required = true) in Hc];
        congruence.
Qed.

(** X12. The follow-up attempt of [tryMerge] fetches the pull request
    first; if the remote service reports it as merged, the attempt is a
    success and no merge call is made. *)
Theorem retryMergeAttempt_sees_merged {Remote : Type} (o : Octokit Remote)
        (pr pr' : PullRequest) (h mm : string) (cm : value) (n : nat) (ms : N)
        (w : World Remote) (r : Remote) :
  pulls_get o (login (repo_owner (repo (base pr)))) (repo_name (repo (base pr)))
    (number pr) (remote w) = (Ok pr', r) ->
  merged pr' = true ->
  tryMerge o pr h mm n ms cm
  = retry n ms (mergePullRequest o pr h mm cm) (retryMergeAttempt o pr h mm cm)
      (logger_info
         [LS ("PR could not be merged after "
              ++ Number_toString (N.of_nat n) ++ " tries")])
  /\ fst (retryMergeAttempt o pr h mm cm w) = Ok Success
  /\ remote (snd (retryMergeAttempt o pr h mm cm w)) = r
  /\ calls_of (trace (snd (retryMergeAttempt o pr h mm cm w)))
     = PullsGet (login (repo_owner (repo (base pr)))) (repo_name (repo (base pr)))
         (number pr)
       :: calls_of (trace w).
Proof.
  intros Hget Hm. split; [reflexivity|].
  unfold retryMergeAttempt, getPullRequest, bind, call, logger_debug,
    logger_trace, emit. simpl.
  rewrite Hget. simpl. rewrite Hm. simpl. auto.
Qed.

Lemma retryMergeAttempt_sees_merged_witness :
  fst (retryMergeAttempt Fixtures.ctx_review_needed Fixtures.pr0 "abc123" "merge"
         VUndefined Fixtures.w0) = Ok Success
  /\ calls_of (trace (snd (retryMergeAttempt Fixtures.ctx_review_needed
                             Fixtures.pr0 "abc123" "merge" VUndefined
                             Fixtures.w0)))
     = [PullsGet "octo" "app" 42].
Proof.
  pose proof (retryMergeAttempt_sees_merged Fixtures.ctx_review_needed
                Fixtures.pr0 _ "abc123" "merge" VUndefined 3 1000%N Fixtures.w0 tt
                eq_refl eq_refl) as [_ [H1 [_ H2]]].
  split; [exact H1 | exact H2].
Defined.

(** *** The readiness wait *)

(** X13. The only calls of [waitUntilReady] are fetches of the pull
    request, by its number, from its base repository. *)
Theorem waitUntilReady_only_refetches {Remote : Type} (o : Octokit Remote)
        (pr : PullRequest) (n : nat) (ms : N) (w : World Remote) :
  exists evs,
    trace (snd (waitUntilReady o pr n ms w)) = (evs ++ trace w)%list
    /\ forallb (is_refetch pr) evs = true.
Proof.
  revert w. change (emits (is_refetch pr) (waitUntilReady o pr n ms)).
  unfold waitUntilReady, getPullRequest, logger_info, logger_debug, logger_trace.
  repeat first
    [ apply checkReady_emits; reflexivity
    | emits_step
    | apply emits_call; simpl; rewrite !String.eqb_refl, ?N.eqb_refl; reflexivity ].
Qed.

(** *** What [merge] does to the remote service *)

Lemma forallb_weaken {A : Type} (P Q : A -> bool) (l : list A) :
  (forall a, P a = true -> Q a = true) ->
  forallb P l = true -> forallb Q l = true.
Proof.
  intros H. induction l as [|a l IH]; simpl; [reflexivity|].
  rewrite !andb_true_iff. intros [Ha Hl]. split; [now apply H | now apply IH].
Qed.

Lemma skipPullRequest_passive {Remote : Type} (ctx : Context Remote)
      (pr : PullRequest) :
  emits is_passive (skipPullRequest ctx pr).
Proof.
  unfold skipPullRequest, scanChecks, skip_when, fetchChecks, fetchReviews.
  emits_auto.
Qed.

Lemma waitUntilReady_passive {Remote : Type} (o : Octokit Remote)
      (pr : PullRequest) (n : nat) (ms : N) :
  emits is_passive (waitUntilReady o pr n ms).
Proof.
  unfold waitUntilReady, getPullRequest.
  emits_auto; apply checkReady_emits; reflexivity.
Qed.

Lemma tryMerge_spares_cleanup {Remote : Type} (o : Octokit Remote)
      (pr : PullRequest) (h mm : string) (n : nat) (ms : N) (cm : value) :
  emits not_cleanup_call (tryMerge o pr h mm n ms cm).
Proof.
  unfold tryMerge, getPullRequest, mergePullRequest.
  emits_auto; now apply checkMergeError_emits.
Qed.

Lemma cleanUp_returns {Remote : Type} (ctx : Context Remote) (pr : PullRequest)
      (w : World Remote) :
  fst (cleanUp ctx pr w) = Ok tt.
Proof.
  unfold cleanUp, bind, try_catch.
  destruct (removeLabels _ _ _ w) as [[[] | e] w1]; simpl;
    (destruct (mergeDeleteBranch (config ctx)); [|reflexivity]);
    now destruct (deleteBranch _ _ _) as [[[] | e'] w2].
Qed.

Lemma applyCommitMessageRegex_address {Remote : Type} (p : option RegExp.Pattern)
      (pr pr' : PullRequest) (w : World Remote) :
  fst (applyCommitMessageRegex p pr w) = Ok pr' ->
  base pr' = base pr /\ number pr' = number pr.
Proof.
  unfold applyCommitMessageRegex.
  destruct p as [p|]; [|now intros [= <-]].
  destruct (String.eqb (RegExp.source p) ""); [now intros [= <-]|].
  destruct (RegExp.exec _ _) as [m|]; [|now intros [= <-]].
  destruct (RegExp.get m 1); simpl; try discriminate. now intros [= <-].
Qed.

Lemma applyCommitMessageRegex_frame {Remote : Type} (p : option RegExp.Pattern)
      (pr pr' : PullRequest) (w : World Remote) :
  fst (applyCommitMessageRegex p pr w) = Ok pr' -> pr' = set_body pr (body pr').
Proof.
  assert (Hsame : pr = set_body pr (body pr)) by now destruct pr.
  unfold applyCommitMessageRegex.
  destruct p as [p|]; [|now intros [= <-]].
  destruct (String.eqb (RegExp.source p) ""); [now intros [= <-]|].
  destruct (RegExp.exec _ _) as [m|]; [|now intros [= <-]].
  destruct (RegExp.get m 1); simpl; try discriminate. now intros [= <-].
Qed.

(** Either [merge] gets to the author filter, having made neither a merge
    call nor a call of the clean-up, or it ends before, in the same way
    and without returning true. *)
Lemma merge_before_finish {Remote : Type} (ctx : Context Remote)
      (pr : PullRequest) (w : World Remote) :
  (exists w2 pr' evs,
      merge ctx pr w = finishMerge ctx pr' (sha (head pr)) w2
      /\ pr' = set_body pr (body pr')
      /\ base pr' = base pr /\ number pr' = number pr
      /\ trace w2 = (evs ++ trace w)%list
      /\ forallb is_passive evs = true)
  \/ (fst (merge ctx pr w) <> Ok true
      /\ exists evs,
          trace (snd (merge ctx pr w)) = (evs ++ trace w)%list
          /\ forallb is_passive evs = true).
Proof.
  destruct (skipPullRequest_passive ctx pr w) as [evs1 [Ht1 Hp1]].
  unfold merge, bind.
  destruct (skipPullRequest ctx pr w) as [[[|] | e] w1]; simpl in Ht1 |- *.
  - right. destruct (failOnMergeSkip (config ctx)); simpl;
      (split; [discriminate | now exists evs1]).
  - destruct (waitUntilReady_passive (octokit ctx) pr (mergeRetries (config ctx))
                (mergeRetrySleep (config ctx)) (snd (announce pr w1)))
      as [evs2 [Ht2 Hp2]].
    simpl in Ht2 |- *.
    assert (Hall : forall w2 : World Remote,
               trace w2
               = (evs2 ++ EvLog Info
                            [LS ("Merging PR #" ++ Number_toString (number pr)
                                 ++ " " ++ title pr)] :: trace w1)%list ->
               exists evs, trace w2 = (evs ++ trace w)%list
                           /\ forallb is_passive evs = true).
    { intros w2 Hw2.
      exists (evs2 ++ EvLog Info
                        [LS ("Merging PR #" ++ Number_toString (number pr) ++ " "
                             ++ title pr)] :: evs1)%list.
      split; [now rewrite Hw2, Ht1, <- app_assoc|].
      rewrite forallb_app. simpl. now rewrite Hp1, Hp2. }
    destruct (waitUntilReady _ _ _ _ _) as [[[|] | e] w2]; simpl in Ht2 |- *.
    + pose proof (applyCommitMessageRegex_pure
                    (mergeCommitMessageRegex (config ctx)) pr w2) as Hpure.
      pose proof (fun pr' => applyCommitMessageRegex_address
                               (mergeCommitMessageRegex (config ctx)) pr pr' w2)
        as Haddr.
      pose proof (fun pr' => applyCommitMessageRegex_frame
                               (mergeCommitMessageRegex (config ctx)) pr pr' w2)
        as Hframe.
      destruct (applyCommitMessageRegex _ pr w2) as [[pr' | e] wx];
        simpl in Hpure; subst wx.
      * left. destruct (Hall w2 Ht2) as [evs [Ht Hp]].
        destruct (Haddr pr' eq_refl) as [Hb Hn].
        pose proof (Hframe pr' eq_refl) as Hf.
        exists w2, pr', evs. repeat split; assumption.
      * right. split; [discriminate | now apply Hall].
    + right. split; [discriminate | now apply Hall].
    + right. split; [discriminate | now apply Hall].
  - right. split; [discriminate | now exists evs1].
Qed.

(** X14. [merge] returns true only after a merge call: when it returns
    true, the remote service was asked at least once to merge this pull
    request, in its base repository, at the head commit of the snapshot
    passed in and with the configured merge method. *)
Theorem merge_true_after_merge_call {Remote : Type} (ctx : Context Remote)
        (pr : PullRequest) (w : World Remote) :
  fst (merge ctx pr w) = Ok true ->
  exists cm evs evs',
    trace (snd (merge ctx pr w))
    = (evs ++ EvCall (PullsMerge (login (repo_owner (repo (base pr))))
                        (repo_name (repo (base pr))) (number pr) cm ""
                        (sha (head pr)) (mergeMethod (config ctx)))
           :: evs' ++ trace w)%list.
Proof.
  intros Htrue.
  destruct (merge_before_finish ctx pr w)
    as [[w2 [pr' [evs [Hm [_ [Hb [Hn [Ht Hp]]]]]]]] | [Hno _]]; [|contradiction].
  destruct (author_filtered (mergeFilterAuthor (config ctx)) pr') eqn:Ha.
  - rewrite Hm in Htrue. unfold finishMerge in Htrue. rewrite Ha in Htrue.
    discriminate Htrue.
  - destruct (finishMerge_calls ctx pr' (sha (head pr)) w2 Ha) as [evs3 Hcall].
    exists (getCommitMessage (mergeCommitMessage (config ctx)) pr'), evs3, evs.
    rewrite Hm, Hcall, Hb, Hn, Ht. reflexivity.
Qed.

Lemma merge_true_after_merge_call_witness :
  exists cm evs evs',
    trace (snd (merge (Fixtures.ctx_fail_on_skip false) Fixtures.pr0 Fixtures.w0))
    = (evs ++ EvCall (PullsMerge "octo" "app" 42 cm "" "abc123" "merge")
           :: evs' ++ [])%list.
Proof.
  apply (merge_true_after_merge_call (Fixtures.ctx_fail_on_skip false)
           Fixtures.pr0 Fixtures.w0).
  reflexivity.
Defined.

(** X15. Labels are removed and the branch is looked up or deleted only
    after a merge that went through: when [merge] does not return true, it
    has made no call of the clean-up. *)
Theorem merge_cleans_up_only_after_success {Remote : Type} (ctx : Context Remote)
        (pr : PullRequest) (w : World Remote) :
  fst (merge ctx pr w) <> Ok true ->
  exists evs,
    trace (snd (merge ctx pr w)) = (evs ++ trace w)%list
    /\ forallb not_cleanup_call evs = true.
Proof.
  assert (Hweak : forall e, is_passive e = true -> not_cleanup_call e = true).
  { intros e He. unfold is_passive in He. now apply andb_true_iff in He as [_ He]. }
  intros Hnot.
  destruct (merge_before_finish ctx pr w)
    as [[w2 [pr' [evs [Hm [_ [_ [_ [Ht Hp]]]]]]]] | [_ [evs [Ht Hp]]]].
  - rewrite Hm in Hnot |- *. unfold finishMerge in Hnot |- *.
    destruct (author_filtered (mergeFilterAuthor (config ctx)) pr').
    + exists evs. split; [exact Ht | now apply (forallb_weaken is_passive)].
    + unfold bind in Hnot |- *.
      destruct (tryMerge_spares_cleanup (octokit ctx) pr' (sha (head pr))
                  (mergeMethod (config ctx)) (mergeRetries (config ctx))
                  (mergeRetrySleep (config ctx))
                  (getCommitMessage (mergeCommitMessage (config ctx)) pr') w2)
        as [evs3 [Ht3 Hp3]].
      destruct (tryMerge _ _ _ _ _ _ _ w2) as [[[|] | e] w3];
        simpl in Ht3, Hnot |- *.
      * exfalso. apply Hnot.
        pose proof (cleanUp_returns ctx pr'
                      (mkWorld (remote w3)
                         (EvLog Info [LS "PR successfully merged!"] :: trace w3)))
          as Hc.
        destruct (cleanUp ctx pr' _) as [[[] | e] w4]; simpl in Hc |- *;
          [reflexivity | discriminate].
      * exists (evs3 ++ evs)%list. split; [now rewrite Ht3, Ht, app_assoc|].
        rewrite forallb_app, Hp3. now apply (forallb_weaken is_passive).
      * exists (evs3 ++ evs)%list. split; [now rewrite Ht3, Ht, app_assoc|].
        rewrite forallb_app, Hp3. now apply (forallb_weaken is_passive).
  - exists evs. split; [exact Ht | now apply (forallb_weaken is_passive)].
Qed.

Lemma merge_cleans_up_only_after_success_witness :
  exists evs,
    trace (snd (merge Fixtures.ctx_merge_refused Fixtures.pr0 Fixtures.w0))
    = (evs ++ [])%list
    /\ forallb not_cleanup_call evs = true.
Proof.
  apply (merge_cleans_up_only_after_success Fixtures.ctx_merge_refused
           Fixtures.pr0 Fixtures.w0).
  discriminate.
Defined.

(** X16. For a pull request that the eligibility check skips, [merge]
    does nothing after the check: its only calls are the requests of the
    check, it does not sleep and does not fetch the pull request again. *)
Theorem merge_skipped_only_reads {Remote : Type} (ctx : Context Remote)
        (pr : PullRequest) (w : World Remote) :
  fst (skipPullRequest ctx pr w) = Ok true ->
  snd (merge ctx pr w) = snd (skipPullRequest ctx pr w)
  /\ exists evs,
      trace (snd (merge ctx pr w)) = (evs ++ trace w)%list
      /\ forallb (is_eligibility_read pr) evs = true.
Proof.
  intros Hs.
  assert (Hw : snd (merge ctx pr w) = snd (skipPullRequest ctx pr w)).
  { unfold merge, bind.
    destruct (skipPullRequest ctx pr w) as [[[|] | e] w1]; simpl in Hs |- *;
      try discriminate.
    now destruct (failOnMergeSkip (config ctx)). }
  split; [exact Hw|]. rewrite Hw. apply skipPullRequest_emits_reads.
Qed.

Lemma merge_skipped_only_reads_witness :
  calls_of (trace (snd (merge (Fixtures.ctx_ci [mkCheckRun "ci" (VStr "failure")])
                          Fixtures.pr0 Fixtures.w0)))
  = [GetCheckRuns "octo" "app" "abc123"].
Proof.
  rewrite (proj1 (merge_skipped_only_reads
                    (Fixtures.ctx_ci [mkCheckRun "ci" (VStr "failure")])
                    Fixtures.pr0 Fixtures.w0 eq_refl)).
  reflexivity.
Defined.

Lemma tryMerge_spares_branches {Remote : Type} (o : Octokit Remote)
      (pr : PullRequest) (h mm : string) (n : nat) (ms : N) (cm : value) :
  emits not_branch_call (tryMerge o pr h mm n ms cm).
Proof.
  unfold tryMerge, getPullRequest, mergePullRequest.
  emits_auto; now apply checkMergeError_emits.
Qed.

Lemma removeLabels_spares_branches {Remote : Type} (o : Octokit Remote)
      (pr : PullRequest) (names : list string) :
  emits not_branch_call (removeLabels o pr names).
Proof.
  unfold removeLabels, logger_debug, logger_info. emits_auto.
Qed.

(** X1. The branch of a pull request opened from another repository is
    never touched: whatever the configuration and the answers of the
    remote service, [merge] neither looks up nor deletes a branch when the
    head and the base repositories of the pull request differ. *)
Theorem merge_leaves_fork_branches_alone {Remote : Type} (ctx : Context Remote)
        (pr : PullRequest) (w : World Remote) :
  repo_full_name (repo (head pr)) <> repo_full_name (repo (base pr)) ->
  exists evs,
    trace (snd (merge ctx pr w)) = (evs ++ trace w)%list
    /\ forallb not_branch_call evs = true.
Proof.
  assert (Hweak : forall e, is_passive e = true -> not_branch_call e = true).
  { intros [[ ] | | ]; try reflexivity; discriminate. }
  intros Hfork.
  destruct (merge_before_finish ctx pr w)
    as [[w2 [pr' [evs [Hm [Hframe [_ [_ [Ht Hp]]]]]]]] | [_ [evs [Ht Hp]]]].
  - assert (Hfork' : repo_full_name (repo (head pr'))
                     <> repo_full_name (repo (base pr')))
      by now rewrite Hframe.
    assert (Hfinish : emits not_branch_call (finishMerge ctx pr' (sha (head pr)))).
    { unfold finishMerge.
      destruct (author_filtered _ pr'); [apply emits_ret|].
      apply emits_bind; [apply tryMerge_spares_branches | intros merged].
      destruct merged; simpl; [|apply emits_ret].
      apply emits_bind; [now apply emits_emit | intros _].
      apply emits_bind; [|intros _; apply emits_ret].
      unfold cleanUp.
      apply emits_bind.
      - apply emits_try_catch; [apply removeLabels_spares_branches | intros e].
        now apply emits_emit.
      - intros _. destruct (mergeDeleteBranch (config ctx)); [|apply emits_ret].
        apply emits_try_catch; [|intros e; now apply emits_emit].
        intros w'. rewrite (deleteBranch_fork _ _ _ Hfork').
        now exists [EvLog Info
                      [LS "Branch is from external repository, skipping delete"]]. }
    destruct (Hfinish w2) as [evs3 [Ht3 Hp3]].
    exists (evs3 ++ evs)%list. rewrite Hm. split; [now rewrite Ht3, Ht, app_assoc|].
    rewrite forallb_app, Hp3. now apply (forallb_weaken is_passive).
  - exists evs. split; [exact Ht | now apply (forallb_weaken is_passive)].
Qed.

Lemma merge_leaves_fork_branches_alone_witness :
  exists evs,
    trace (snd (merge (mkContext (Fixtures.obliging None [])
                         (mkConfig true (mkMergeLabels [] []) None false false
                            "merge" "automatic" None None [] 3 1000 true))
                  Fixtures.pr_fork Fixtures.w0))
    = (evs ++ [])%list
    /\ forallb not_branch_call evs = true.
Proof.
  apply (merge_leaves_fork_branches_alone
           (mkContext (Fixtures.obliging None [])
              (mkConfig true (mkMergeLabels [] []) None false false
                 "merge" "automatic" None None [] 3 1000 true))
           Fixtures.pr_fork Fixtures.w0).
  discriminate.
Defined.

(** *** The extraction step and the commit message *)

Lemma trimStart_fixed (c : ascii) (s : string) :
  is_trimmable c = false -> trimStart (String c s) = String c s.
Proof. intros H. simpl. now rewrite H. Qed.

Lemma trimStart_idempotent (s : string) : trimStart (trimStart s) = trimStart s.
Proof.
  induction s as [|c s IH]; simpl; [reflexivity|].
  destruct (is_trimmable c) eqn:Hc; [exact IH | now apply trimStart_fixed].
Qed.

Lemma trimEnd_idempotent (s : string) : trimEnd (trimEnd s) = trimEnd s.
Proof.
  induction s as [|c s IH]; simpl; [reflexivity|].
  destruct (trimEnd s) as [|d t] eqn:Ht.
  - destruct (is_trimmable c) eqn:Hc; simpl; [reflexivity | now rewrite Hc].
  - change (trimEnd (String c (String d t)))
      with (match trimEnd (String d t) with
            | EmptyString =>
                if is_trimmable c then EmptyString else String c EmptyString
            | String a u => String c (String a u)
            end).
    now rewrite IH.
Qed.

Lemma trimEnd_keeps_start (s : string) :
  trimStart s = s -> trimStart (trimEnd s) = trimEnd s.
Proof.
  destruct s as [|c s]; [reflexivity|]. simpl.
  destruct (is_trimmable c) eqn:Hc.
  - intros H. exfalso.
    assert (Hlen : String.length (trimStart s) <= String.length s).
    { clear H. induction s as [|d s IH]; simpl; [lia|].
      destruct (is_trimmable d); simpl; lia. }
    rewrite H in Hlen. simpl in Hlen. lia.
  - intros _. destruct (trimEnd s); simpl; now rewrite Hc.
Qed.

Lemma trim_idempotent (s : string) : trim (trim s) = trim s.
Proof.
  unfold trim.
  rewrite (trimEnd_keeps_start (trimStart s) (trimStart_idempotent s)).
  apply trimEnd_idempotent.
Qed.

(** X17. The extraction step changes nothing but the body of the pull
    request, and a body it has rewritten is trimmed: it neither starts nor
    ends with white space, so trimming it again gives the same text. *)
Theorem applyCommitMessageRegex_changes_only_body {Remote : Type}
        (p : option RegExp.Pattern) (pr pr' : PullRequest) (w : World Remote) :
  fst (applyCommitMessageRegex p pr w) = Ok pr' ->
  pr' = set_body pr (body pr')
  /\ (body pr' = body pr \/ exists b, body pr' = VStr b /\ trim b = b).
Proof.
  assert (Hsame : pr = set_body pr (body pr)) by now destruct pr.
  unfold applyCommitMessageRegex.
  destruct p as [p|]; [|intros [= <-]; auto].
  destruct (String.eqb (RegExp.source p) ""); [intros [= <-]; auto|].
  destruct (RegExp.exec _ _) as [m|]; [|intros [= <-]; auto].
  destruct (RegExp.get m 1) as [ | | m1]; simpl; try discriminate.
  intros [= <-]. split; [reflexivity|]. right. exists (trim m1).
  split; [reflexivity | apply trim_idempotent].
Qed.

Lemma applyCommitMessageRegex_changes_only_body_witness :
  set_body Fixtures.pr_notes (VStr "Fix the bug")
  = set_body Fixtures.pr_notes (VStr "Fix the bug")
  /\ (VStr "Fix the bug" = body Fixtures.pr_notes
      \/ exists b, VStr "Fix the bug" = VStr b /\ trim b = b).
Proof.
  apply (applyCommitMessageRegex_changes_only_body
           (Some Fixtures.notes_pattern) Fixtures.pr_notes
           (set_body Fixtures.pr_notes (VStr "Fix the bug")) Fixtures.w0).
  vm_compute. reflexivity.
Defined.

Lemma string_of_list_ascii_inverse (s : string) :
  string_of_list_ascii (list_ascii_of_string s) = s.
Proof. induction s as [|c s IH]; simpl; [reflexivity | now rewrite IH]. Qed.

Lemma replace_without_match (s : string) (re : RegExp.t) (replacement : string) :
  RegExp.exec_from re (list_ascii_of_string s) 0 = None ->
  RegExp.replace s re replacement = s.
Proof.
  intros H. unfold RegExp.replace.
  assert (Hend : forall fuel,
             RegExp.replace_loop (S fuel) re (list_ascii_of_string s)
               replacement 0 0 "" = s).
  { intros fuel. cbn [RegExp.replace_loop]. rewrite H. unfold RegExp.slice.
    rewrite Nat.sub_0_r, firstn_all. simpl. apply string_of_list_ascii_inverse. }
  destruct (RegExp.global (RegExp.flags re)); apply Hend.
Qed.

Lemma N_of_ascii_eqb (c d : ascii) :
  N.eqb (N_of_ascii c) (N_of_ascii d) = true -> c = d.
Proof.
  intros H. apply N.eqb_eq in H.
  rewrite <- (ascii_N_embedding c), <- (ascii_N_embedding d). now rewrite H.
Qed.

Lemma placeholder_needs_brace (prProp : string) (input : list ascii) (i : nat) :
  nth_error input i <> Some "{"%char ->
  RegExp.match_at (RegExp.flags (RegExp.new (placeholder prProp) "g"))
    (RegExp.ast (placeholder prProp)) input i = None.
Proof.
  intros H. unfold RegExp.match_at, RegExp.matcher, placeholder.
  cbn [RegExp.ast RegExp.literal RegExp.matcher_upto RegExp.endIndex].
  destruct (nth_error input i) as [d|]; [|reflexivity].
  destruct (N.eqb _ _) eqn:He; [|reflexivity].
  exfalso. apply H. f_equal. symmetry. now apply N_of_ascii_eqb.
Qed.

Lemma placeholder_without_brace (prProp : string) (input : list ascii) :
  ~ In "{"%char input ->
  RegExp.exec_from (RegExp.new (placeholder prProp) "g") input 0 = None.
Proof.
  intros H. unfold RegExp.exec_from. simpl Nat.leb. cbv iota.
  cbn [RegExp.pattern RegExp.new].
  generalize (length input - 0) at 1. generalize 0.
  intros i n. revert i. induction n as [|n IH]; intros i; cbn [RegExp.search];
    (rewrite placeholder_needs_brace;
     [|intros Hn; apply H; now apply nth_error_In in Hn]);
    [reflexivity | apply IH].
Qed.

(** X18. A commit message setting other than the four named modes, and in
    which no opening brace occurs, is used as it is for the commit title,
    whatever the pull request. *)
Theorem getCommitMessage_plain_text (mode : string) (pr : PullRequest) :
  mode <> "automatic" ->
  mode <> "pull-request-title" ->
  mode <> "pull-request-description" ->
  mode <> "pull-request-title-and-description" ->
  ~ In "{"%char (list_ascii_of_string mode) ->
  getCommitMessage mode pr = VStr mode.
Proof.
  intros H1 H2 H3 H4 Hb. unfold getCommitMessage.
  apply String.eqb_neq in H1, H2, H3, H4. rewrite H1, H2, H3, H4.
  cbn [fold_left].
  rewrite (replace_without_match mode _ _ (placeholder_without_brace "number" _ Hb)).
  rewrite (replace_without_match mode _ _ (placeholder_without_brace "title" _ Hb)).
  now rewrite (replace_without_match mode _ _ (placeholder_without_brace "body" _ Hb)).
Qed.

Lemma getCommitMessage_plain_text_witness :
  getCommitMessage "Merged automatically" Fixtures.pr0 = VStr "Merged automatically".
Proof.
  apply (getCommitMessage_plain_text "Merged automatically" Fixtures.pr0);
    try discriminate.
  simpl. intros H. repeat (destruct H as [H | H]; [discriminate H|]). exact H.
Defined.

Lemma GetSubstitution_plain (m : RegExp.MatchResult) (input : list ascii)
      (template : string) :
  ~ In "$"%char (list_ascii_of_string template) ->
  RegExp.GetSubstitution m input template = template.
Proof.
  induction template as [|c t IH]; intros H; [reflexivity|].
  cbn [RegExp.GetSubstitution]. simpl in H.
  destruct (Ascii.eqb c "$") eqn:Hc.
  - apply Ascii.eqb_eq in Hc. exfalso. apply H. now left.
  - simpl. rewrite IH; [reflexivity|]. intros Hin. apply H. now right.
Qed.

Lemma replace_loop_step (fuel : nat) (re : RegExp.t) (input : list ascii)
      (replacement : string) (lastIndex next : nat) (acc : string) :
  RegExp.replace_loop (S fuel) re input replacement lastIndex next acc
  = match RegExp.exec_from re input lastIndex with
    | None => acc ++ RegExp.slice input next (length input)
    | Some m =>
        let e := RegExp.index m + String.length (RegExp.matched m) in
        let lastIndex' :=
          if Nat.eqb (String.length (RegExp.matched m)) 0 then S e else e in
        if Nat.leb next (RegExp.index m)
        then RegExp.replace_loop fuel re input replacement lastIndex' e
               (acc ++ RegExp.slice input next (RegExp.index m)
                    ++ RegExp.GetSubstitution m input replacement)
        else RegExp.replace_loop fuel re input replacement lastIndex' next acc
    end.
Proof. reflexivity. Qed.

(** X19. With the template "{pullRequest.title}", the commit title is the
    title of the pull request, provided the title holds neither a dollar
    sign nor an opening brace. *)
Theorem getCommitMessage_title_placeholder (pr : PullRequest) :
  ~ In "$"%char (list_ascii_of_string (title pr)) ->
  ~ In "{"%char (list_ascii_of_string (title pr)) ->
  getCommitMessage "{pullRequest.title}" pr = VStr (title pr).
Proof.
  intros Hd Hb. unfold getCommitMessage.
  cbn [String.eqb Ascii.eqb Bool.eqb fold_left].
  set (r1 := RegExp.replace "{pullRequest.title}"
               (RegExp.new (placeholder "number") "g") (prop_text pr "number")).
  assert (Hnumber : r1 = "{pullRequest.title}")
    by (apply replace_without_match; vm_compute; reflexivity).
  clearbody r1. subst r1.
  set (r2 := RegExp.replace "{pullRequest.title}"
               (RegExp.new (placeholder "title") "g") (prop_text pr "title")).
  assert (Htitle : r2 = title pr).
  { subst r2. unfold RegExp.replace.
    change (RegExp.global (RegExp.flags (RegExp.new (placeholder "title") "g")))
      with true. cbv iota.
    set (input := list_ascii_of_string "{pullRequest.title}").
    set (re := RegExp.new (placeholder "title") "g").
    assert (E0 : RegExp.exec_from re input 0
                 = Some (RegExp.mkMatch 0 "{pullRequest.title}" []))
      by (vm_compute; reflexivity).
    assert (E1 : RegExp.exec_from re input 19 = None)
      by (vm_compute; reflexivity).
    assert (L : S (length input) = S (S 18)) by reflexivity.
    assert (S0 : RegExp.slice input 0 0 = "") by reflexivity.
    assert (S1 : RegExp.slice input 19 (length input) = "") by reflexivity.
    rewrite L. clearbody input re.
    rewrite replace_loop_step, E0.
    cbn [RegExp.index RegExp.matched String.length Nat.eqb Nat.add Nat.leb].
    cbv zeta. rewrite replace_loop_step, E1, S0, S1. change (prop_text pr "title") with (title pr).
    rewrite (GetSubstitution_plain _ _ _ Hd).
    simpl. clear. induction (title pr) as [|c t IH]; simpl; [reflexivity|].
    now rewrite IH. }
  clearbody r2. subst r2.
  apply f_equal. apply replace_without_match.
  now apply placeholder_without_brace.
Qed.

Lemma getCommitMessage_title_placeholder_witness :
  getCommitMessage "{pullRequest.title}" Fixtures.pr0 = VStr "Add feature".
Proof.
  apply (getCommitMessage_title_placeholder Fixtures.pr0);
    simpl; intros H; repeat (destruct H as [H | H]; [discriminate H|]); exact H.
Defined.
